(** * tg-bot: the Hugging Face inference service (ai-service.ts)

    A shallow embedding of the AI service of the bot: the per-user
    conversation store, [getAIResponse], the model/endpoint traversal of
    [callHuggingFace], and the response-shape tolerant
    [extractGeneratedText]; followed by the vocabulary of the specification
    and by the properties of the service.

    Conventions of the embedding.
    - A JavaScript string is a Rocq [string] holding its UTF-8 encoding.
    - A value obtained from [JSON.parse] is a [json]; [undefined] (a missing
      property) is [None] in [option json].
    - An exception is a [JsError] carrying its message; code that may throw
      lives in the [outcome] monad.
    - A log statement is modelled where it can throw (a template literal
      on a parsed value, a string method on a value that need not be a
      string); elsewhere logging is left out.
    - The network is an oracle: [fetch n req] is what the [n]-th request of
      one [getAIResponse] call receives.  Every request is logged, so the
      requests that were really issued can be counted and inspected.
    - The conversation store is a finite map from user ids to histories.
      [getAIResponse] pushes onto the stored array and stores it again
      before anything else can run, so the update is modelled by value.
      Calls are run one after the other; two calls of one user that overlap
      in time are not modelled. *)

From Stdlib Require Import ZArith String Ascii List Bool Lia DecimalString.
From stdpp Require Import base option list gmap strings.
Import ListNotations.

Set Warnings "-register-all".

Local Open Scope string_scope.
Local Open Scope Z_scope.

(** ** Strings *)

Module JsString.

(** The line feed of the template literals ("\n"). *)
Definition LF : string := String (ascii_of_nat 10) EmptyString.

(** [!s] is true exactly for the empty string. *)
Definition nonempty (s : string) : bool :=
  match s with EmptyString => false | String _ _ => true end.

(** [`${n}`] for an integer [n]. *)
Definition of_Z (n : Z) : string := NilZero.string_of_int (Z.to_int n).

(** [s.substring(0, n)], counting bytes where JavaScript counts UTF-16 code
    units; the service uses it for texts that are only logged. *)
Fixpoint prefix (n : nat) (s : string) : string :=
  match n, s with
  | S k, String c t => String c (prefix k t)
  | _, _ => EmptyString
  end.

Definition byte_is (c : ascii) (n : nat) : bool := Nat.eqb (nat_of_ascii c) n.

(** ECMAScript WhiteSpace and LineTerminator code points, by the length of
    their UTF-8 encoding.  One byte: U+0009..U+000D and U+0020. *)
Definition ws1 (c : ascii) : bool :=
  let n := nat_of_ascii c in
  (Nat.leb 9 n && Nat.leb n 13) || Nat.eqb n 32.

(** Two bytes: U+00A0 (C2 A0). *)
Definition ws2 (c1 c2 : ascii) : bool := byte_is c1 194 && byte_is c2 160.

(** Three bytes: U+1680 (E1 9A 80), U+2000..U+200A (E2 80 80..8A),
    U+2028, U+2029, U+202F (E2 80 A8, A9, AF), U+205F (E2 81 9F),
    U+3000 (E3 80 80), U+FEFF (EF BB BF). *)
Definition ws3 (c1 c2 c3 : ascii) : bool :=
  let n3 := nat_of_ascii c3 in
  (byte_is c1 225 && byte_is c2 154 && byte_is c3 128)
  || (byte_is c1 226 && byte_is c2 128
      && ((Nat.leb 128 n3 && Nat.leb n3 138)
          || Nat.eqb n3 168 || Nat.eqb n3 169 || Nat.eqb n3 175))
  || (byte_is c1 226 && byte_is c2 129 && byte_is c3 159)
  || (byte_is c1 227 && byte_is c2 128 && byte_is c3 128)
  || (byte_is c1 239 && byte_is c2 187 && byte_is c3 191).

(** Drops the white space at the front of a list of bytes.  With
    [back = true] the list is a reversed string, and the encodings are
    matched back to front. *)
Fixpoint strip (back : bool) (l : list ascii) : list ascii :=
  match l with
  | [] => []
  | c1 :: l1 =>
      if ws1 c1 then strip back l1
      else match l1 with
           | c2 :: l2 =>
               if (if back then ws2 c2 c1 else ws2 c1 c2) then strip back l2
               else match l2 with
                    | c3 :: l3 =>
                        if (if back then ws3 c3 c2 c1 else ws3 c1 c2 c3)
                        then strip back l3
                        else l
                    | [] => l
                    end
           | [] => l
           end
  end.

(** Whether a list of bytes starts with white space (ends with it, for a
    reversed string). *)
Definition starts_with_space (back : bool) (l : list ascii) : bool :=
  match l with
  | [] => false
  | c1 :: l1 =>
      ws1 c1
      || match l1 with
         | [] => false
         | c2 :: l2 =>
             (if back then ws2 c2 c1 else ws2 c1 c2)
             || match l2 with
                | [] => false
                | c3 :: _ => if back then ws3 c3 c2 c1 else ws3 c1 c2 c3
                end
         end
  end.

Definition leading_space (s : string) : bool :=
  starts_with_space false (list_ascii_of_string s).

Definition trailing_space (s : string) : bool :=
  starts_with_space true (List.rev (list_ascii_of_string s)).

Definition trimStart (s : string) : string :=
  string_of_list_ascii (strip false (list_ascii_of_string s)).

Definition trimEnd (s : string) : string :=
  string_of_list_ascii
    (List.rev (strip true (List.rev (list_ascii_of_string s)))).

(** [s.trim()]. *)
Definition trim (s : string) : string := trimStart (trimEnd s).

End JsString.

(** ** Exceptions *)

Record JsError := Error { error_message : string }.

Inductive outcome (A : Type) : Type :=
| Ok (a : A)
| Throw (e : JsError).
Arguments Ok {A} a.
Arguments Throw {A} e.

Definition bind {A B : Type} (x : outcome A) (k : A -> outcome B) : outcome B :=
  match x with
  | Ok a => k a
  | Throw e => Throw e
  end.

(** [try { body } catch (error) { handler(error) }]. *)
Definition try_catch {A : Type} (body : outcome A) (handler : JsError -> A) : A :=
  match body with
  | Ok a => a
  | Throw e => handler e
  end.

Notation "'let*' x ':=' c1 'in' c2" := (bind c1 (fun x => c2))
  (at level 10, x name, c1 at level 100, c2 at level 200).

(** ** JSON values *)

(** [JNum m e] is the number [m * 10^e] as written in the JSON text; the
    service only ever tests a number for being zero.  The fields of a [JObj]
    are the own properties of the parsed object, each key once. *)
Inductive json : Type :=
| JNull
| JBool (b : bool)
| JNum (m e : Z)
| JStr (s : string)
| JArr (items : list json)
| JObj (fields : list (string * json)).

Module Js.

(** ToBoolean. *)
Definition truthy (v : json) : bool :=
  match v with
  | JNull => false
  | JBool b => b
  | JNum m _ => negb (m =? 0)
  | JStr s => JsString.nonempty s
  | JArr _ | JObj _ => true
  end.

Definition truthy_opt (o : option json) : bool :=
  match o with Some v => truthy v | None => false end.

Fixpoint assoc (k : string) (fields : list (string * json)) : option json :=
  match fields with
  | [] => None
  | (k', v) :: rest => if String.eqb k k' then Some v else assoc k rest
  end.

(** [v.k] for a [v] that is neither [null] nor [undefined], and a [k]
    that is not the name of a built-in property: only objects have it. *)
Definition get (v : json) (k : string) : option json :=
  match v with
  | JObj fields => assoc k fields
  | _ => None
  end.

(** [v.k] where [v] may be [null]: reading a property of [null] throws. *)
Definition TypeError_null (k : string) : JsError :=
  Error ("Cannot read properties of null (reading '" ++ k ++ "')").

Definition member (v : json) (k : string) : outcome (option json) :=
  match v with
  | JNull => Throw (TypeError_null k)
  | _ => Ok (get v k)
  end.

(** [o?.k]: [undefined] when [o] is [null] or [undefined]. *)
Definition opt_get (o : option json) (k : string) : option json :=
  match o with
  | None | Some JNull => None
  | Some v => get v k
  end.

(** [a ?? b]. *)
Definition nullish (a b : option json) : option json :=
  match a with
  | None | Some JNull => b
  | Some _ => a
  end.

(** [a || b]. *)
Definition or (a b : option json) : option json :=
  if truthy_opt a then a else b.

(** [typeof v === "object" && v !== null]. *)
Definition is_object (v : json) : bool :=
  match v with JArr _ | JObj _ => true | _ => false end.

(** Whether the conversion of [v] to a string, as in a template literal
    [`${v}`], returns.  It throws a [TypeError] on a parsed object with an
    own property [toString]: that property is not callable, and
    [valueOf] is either an own property, not callable either, or
    [Object.prototype.valueOf], which returns the object itself.  It throws
    on an array with such an element, since [Array.prototype.join] converts
    every element but [null].  Every other parsed value has a string. *)
Fixpoint printable (v : json) : bool :=
  match v with
  | JObj fields =>
      match assoc "toString" fields with Some _ => false | None => true end
  | JArr items => forallb printable items
  | _ => true
  end.

(** [undefined] prints as "undefined". *)
Definition printable_opt (o : option json) : bool :=
  match o with Some v => printable v | None => true end.

End Js.

(** ** Data model of the service *)

Inductive Role := system | user | assistant.

(** An entry of a conversation history:
    [{ role: "user" | "assistant"; content: string }]. *)
Inductive TurnRole := turn_user | turn_assistant.

Record Turn := mkTurn { turn_role : TurnRole; turn_content : string }.

Record ChatMessage := mkMessage { role : Role; content : string }.

(** A history entry spread into the [ChatMessage[]] literal. *)
Definition message_of_turn (t : Turn) : ChatMessage :=
  mkMessage (match turn_role t with turn_user => user | turn_assistant => assistant end)
            (turn_content t).

Inductive ErrorType :=
| insufficient_balance
| api_error
| unknown
| provider_unavailable.

(** [AIResponseResult]; an absent optional field is [None].  The [error]
    field is declared a string, but [callHuggingFace] stores whatever value
    the provider's error payload holds, hence [json]. *)
Record AIResponseResult := mkResult {
  success : bool;
  message : option string;
  error : option json;
  errorType : option ErrorType
}.

Definition success_result (m : string) : AIResponseResult :=
  mkResult true (Some m) None None.

Definition failure_result (e : json) (t : ErrorType) : AIResponseResult :=
  mkResult false None (Some e) (Some t).

(** What [fetch] resolves to.  [text] is the body (the empty string when
    reading it fails) and [body_json] is what [JSON.parse] makes of that
    body, [None] when it throws; [response.json()] and
    [JSON.parse(lastResponseText)] both compute it. *)
Record Response := mkResponse {
  status : Z;
  statusText : string;
  text : string;
  body_json : option json
}.

(** [response.ok]. *)
Definition ok (r : Response) : bool := (200 <=? status r) && (status r <=? 299).

Record Request := mkRequest {
  url : string;
  method : string;
  headers : list (string * string);
  body : json
}.

Inductive FetchOutcome :=
| Resolved (r : Response)
| Rejected (e : JsError).

(** The network seen by one call of the service: the answer to the [n]-th
    request, which may depend on the request. *)
Definition Network := nat -> Request -> FetchOutcome.

(** The requests of a call with what each received, oldest first. *)
Abbreviation Trace := (list (Request * FetchOutcome)).

(** The fixed texts of the service's results. *)
Module Messages.

Definition warming : string := "Модель прогревается. Попробуйте чуть позже.".
Definition empty_response : string := "Пустой ответ от Hugging Face".
Definition unparsable : string := "Не удалось распарсить ответ API".
Definition no_connection : string := "Не удалось подключиться к API".
Definition unknown_error : string := "Неизвестная ошибка Hugging Face".
Definition missing_key : string := "HF_API_KEY отсутствует".
Definition unexpected : string := "Непредвиденная ошибка".

End Messages.

(** ** [extractGeneratedText] *)

(** The block guarded by [obj.choices && Array.isArray(obj.choices) &&
    obj.choices.length > 0]; [Some v] is [return v], [None] falls through. *)
Definition extract_choice (choice : json) : outcome (option json) :=
  let* msg := Js.member choice "message" in
  let content := if Js.truthy_opt msg then Js.opt_get msg "content" else None in
  if Js.truthy_opt msg && Js.truthy_opt content then Ok content
  else if Js.truthy_opt (Js.get choice "text") then Ok (Js.get choice "text")
  else Ok None.

(** The block guarded by [typeof data === "object" && data !== null]. *)
Definition extract_object (obj : json) : outcome (option json) :=
  let* chosen :=
    match Js.get obj "choices" with
    | Some (JArr (choice :: _)) => extract_choice choice
    | _ => Ok None
    end in
  match chosen with
  | Some v => Ok (Some v)
  | None =>
      if Js.truthy_opt (Js.get obj "generated_text") then Ok (Js.get obj "generated_text")
      else if Js.truthy_opt (Js.get obj "output_text") then Ok (Js.get obj "output_text")
      else if Js.truthy_opt (Js.get obj "text") then Ok (Js.get obj "text")
      else Ok None
  end.

(** The block guarded by [Array.isArray(data)]; it always returns. *)
Definition extract_array (items : list json) : option json :=
  match items with
  | [] => None
  | first :: _ =>
      if negb (Js.truthy first) then None
      else match first with
           | JStr _ => Some first
           | JArr _ | JObj _ =>
               let candidate :=
                 Js.nullish (Js.get first "generated_text")
                   (Js.nullish (Js.get first "output_text")
                      (Js.nullish (Js.get first "text") (Js.get first "content"))) in
               match candidate with
               | Some (JStr s) => Some (JStr s)
               | _ => None
               end
           | _ => None
           end
  end.

(** [extractGeneratedText(data)]: [Ok None] is [null]. *)
Definition extractGeneratedText (data : json) : outcome (option json) :=
  if negb (Js.truthy data) then Ok None
  else
    let* found :=
      if Js.is_object data then extract_object data else Ok None in
    match found with
    | Some v => Ok (Some v)
    | None =>
        match data with
        | JArr items => Ok (extract_array items)
        | JStr _ => Ok (Some data)
        | _ => Ok None
        end
    end.

(** ** The service *)

Definition MAX_HISTORY : nat := 10.

(** [history.slice(-n)]: the last [n] entries. *)
Definition slice_last {A : Type} (n : nat) (l : list A) : list A :=
  drop (length l - n) l.

Definition roleLabels (r : Role) : string :=
  match r with
  | system => "System"
  | user => "User"
  | assistant => "Assistant"
  end.

Definition buildPrompt (messages : list ChatMessage) : string :=
  let history :=
    String.concat JsString.LF
      (map (fun m => roleLabels (role m) ++ ": " ++ content m) messages) in
  history ++ JsString.LF ++ "Assistant:".

(** One entry of the [endpoints] array of [callHuggingFace]; a fixed [url]
    is a constant function of the model. *)
Record Endpoint := mkEndpoint {
  endpoint_name : string;
  endpoint_url : string -> string;
  endpoint_body : string -> json
}.

Definition generation_parameters : json :=
  JObj [ ("max_new_tokens", JNum 200 0);
         ("temperature", JNum 8 (-1));
         ("top_p", JNum 9 (-1));
         ("repetition_penalty", JNum 11 (-1));
         ("return_full_text", JBool false) ].

Definition chat_message_json (m : ChatMessage) : json :=
  JObj [ ("role", JStr (match role m with assistant => "assistant" | _ => "user" end));
         ("content", JStr (content m)) ].

Definition endpoints (messages : list ChatMessage) (prompt : string) : list Endpoint :=
  [ mkEndpoint "router-v1 (v1/chat/completions) - основной"
      (fun _ => "https://router.huggingface.co/v1/chat/completions")
      (fun model =>
         JObj [ ("model", JStr model);
                ("messages", JArr (map chat_message_json messages));
                ("max_tokens", JNum 200 0);
                ("temperature", JNum 8 (-1)) ]);
    mkEndpoint "router-v2 (hf-inference)"
      (fun _ => "https://router.huggingface.co/hf-inference")
      (fun model =>
         JObj [ ("model", JStr model);
                ("inputs", JStr prompt);
                ("parameters", generation_parameters) ]);
    mkEndpoint "router-v3 (models path)"
      (fun model => "https://router.huggingface.co/models/" ++ model)
      (fun _ =>
         JObj [ ("inputs", JStr prompt);
                ("parameters", generation_parameters) ]) ].

(** The local variables of [callHuggingFace] that the two loops assign,
    together with the log of the requests issued so far. *)
Record LoopState := mkLoop {
  lastError : option JsError;
  response : option Response;
  lastResponseText : string;
  successfulModel : string;
  found : bool;
  issued : Trace
}.

Definition initial_loop : LoopState := mkLoop None None "" "" false [].

Definition set_lastError (e : JsError) (st : LoopState) : LoopState :=
  mkLoop (Some e) (response st) (lastResponseText st) (successfulModel st)
         (found st) (issued st).

Definition set_found (model : string) (st : LoopState) : LoopState :=
  mkLoop (lastError st) (response st) (lastResponseText st) model true (issued st).

(** [response = await fetch(...)] resolved, and its text was read. *)
Definition receive (req : Request) (r : Response) (st : LoopState) : LoopState :=
  mkLoop (lastError st) (Some r) (text r) (successfulModel st) (found st)
         (issued st ++ [(req, Resolved r)])%list.

(** [fetch] rejected: [response] and [lastResponseText] keep their values. *)
Definition fail_request (req : Request) (e : JsError) (st : LoopState) : LoopState :=
  mkLoop (Some e) (response st) (lastResponseText st) (successfulModel st)
         (found st) (issued st ++ [(req, Rejected e)])%list.

(** [errorData?.error?.code === "model_not_supported"], with [errorData]
    the parsed body; a body that does not parse gives [false]. *)
Definition model_not_supported (r : Response) : bool :=
  match Js.opt_get (Js.opt_get (body_json r) "error") "code" with
  | Some (JStr code) => String.eqb code "model_not_supported"
  | _ => false
  end.

(** The [try] block entered on a 400 reaches its [break]: the code is
    "model_not_supported" and
    [console.log(`   Сообщение: ${errorData.error.message}`)] returns.
    When that template literal throws, the [catch] of the block ignores the
    exception, the [break] is not reached and the statements after the
    block run, as for any other 400. *)
Definition breaks_to_next_model (r : Response) : bool :=
  model_not_supported r
  && Js.printable_opt (Js.opt_get (Js.opt_get (body_json r) "error") "message").

(** [`Ошибка Hugging Face API (${response.status} ${response.statusText})`]. *)
Definition generic_api_error (code : Z) (reason : string) : string :=
  "Ошибка Hugging Face API (" ++ JsString.of_Z code ++ " " ++ reason ++ ")".

Definition errorMessage (r : Response) (lastText : string) : json :=
  let errorData := body_json r in
  let generic := JStr (generic_api_error (status r) (statusText r)) in
  match
    Js.or (Js.opt_get errorData "error")
      (Js.or (Js.opt_get errorData "message")
         (Js.or (Js.opt_get (Js.opt_get errorData "error") "message")
            (Js.or (Some (JStr lastText)) (Some generic))))
  with
  | Some v => v
  | None => generic
  end.

(** The exception thrown by [generatedText?.substring(0, 100)] when the
    extracted value is not a string. *)
Definition TypeError_substring : JsError :=
  Error "generatedText?.substring is not a function".

(** The end of the [try] block of [callHuggingFace], reached with a 2xx
    response: the body is parsed, the text extracted, logged and trimmed. *)
Definition read_generated_text (r : Response) : outcome AIResponseResult :=
  match body_json r with
  | None => Ok (failure_result (JStr Messages.unparsable) api_error)
  | Some data =>
      let* generatedText := extractGeneratedText data in
      match generatedText with
      | None => Ok (failure_result (JStr Messages.empty_response) api_error)
      | Some (JStr s) =>
          if negb (JsString.nonempty s) then
            Ok (failure_result (JStr Messages.empty_response) api_error)
          else Ok (success_result (JsString.trim s))
      | Some _ => Throw TypeError_substring
      end
  end.

Section Service.

(** [process.env.HF_API_KEY] and [process.env.HF_MODEL], [None] when
    unset. *)
Variable HF_API_KEY : option string.
Variable env_HF_MODEL : option string.

(** The persona prompt returned by [getSystemPrompt()] of the character
    module. *)
Variable getSystemPrompt : string.

Definition HF_MODEL : string :=
  match env_HF_MODEL with
  | Some m => m
  | None => "meta-llama/Meta-Llama-3-8B-Instruct"
  end.

(** [!HF_API_KEY]. *)
Definition no_api_key : bool :=
  match HF_API_KEY with
  | Some k => negb (JsString.nonempty k)
  | None => true
  end.

Definition api_key : string := default "" HF_API_KEY.

Definition modelsToTry : list string :=
  [ HF_MODEL;
    "meta-llama/Meta-Llama-3-8B-Instruct";
    "mistralai/Mistral-7B-Instruct-v0.2";
    "Qwen/Qwen2.5-7B-Instruct";
    "google/gemma-7b-it";
    "HuggingFaceH4/zephyr-7b-beta" ].

Definition request_for (model : string) (endpoint : Endpoint) : Request :=
  mkRequest (endpoint_url endpoint model) "POST"
    [ ("Authorization", "Bearer " ++ api_key);
      ("Content-Type", "application/json") ]
    (endpoint_body endpoint model).

Section Call.

Variable fetch : Network.

(** The inner loop, [for (const endpoint of endpoints)], from the given
    endpoint on.  The boolean is [true] for [break outerLoop]; a plain
    [break] and the end of the loop both give [false]. *)
Fixpoint endpoint_loop (model : string) (eps : list Endpoint)
         (st : LoopState) : LoopState * bool :=
  match eps with
  | [] => (st, false)
  | endpoint :: rest =>
      let req := request_for model endpoint in
      match fetch (length (issued st)) req with
      | Rejected e => endpoint_loop model rest (fail_request req e st)
      | Resolved r =>
          let st := receive req r st in
          if ok r then (set_found model st, true)
          else if status r =? 503 then endpoint_loop model rest st
          else if status r =? 410 then endpoint_loop model rest st
          else if status r =? 404 then
            endpoint_loop model rest
              (set_lastError
                 (Error ("404 Not Found: "
                         ++ JsString.prefix 200 (lastResponseText st))) st)
          else if (status r =? 400) && breaks_to_next_model r then (st, false)
          else
            endpoint_loop model rest
              (set_lastError
                 (Error ("Status " ++ JsString.of_Z (status r) ++ ": "
                         ++ statusText r ++ " - "
                         ++ JsString.prefix 200 (lastResponseText st))) st)
      end
  end.

(** The outer loop, [outerLoop: for (const model of modelsToTry)]. *)
Fixpoint model_loop (eps : list Endpoint) (models : list string)
         (st : LoopState) : LoopState :=
  match models with
  | [] => st
  | model :: rest =>
      let (st', break_outer) := endpoint_loop model eps st in
      if break_outer then st' else model_loop eps rest st'
  end.

(** The statements after the loops, inside the [try] block. *)
Definition conclude (st : LoopState) : outcome AIResponseResult :=
  match response st with
  | None => Throw (default (Error Messages.no_connection) (lastError st))
  | Some r =>
      if status r =? 503 then
        Ok (failure_result (JStr Messages.warming) provider_unavailable)
      else if negb (ok r) then
        Ok (failure_result (errorMessage r (lastResponseText st)) api_error)
      else read_generated_text r
  end.

(** [callHuggingFace(messages)], with the requests it issued. *)
Definition callHuggingFace (messages : list ChatMessage)
  : AIResponseResult * Trace :=
  if no_api_key then
    (failure_result (JStr Messages.missing_key) provider_unavailable, [])
  else
    let prompt := buildPrompt messages in
    let st := model_loop (endpoints messages prompt) modelsToTry initial_loop in
    (try_catch (conclude st)
       (fun error =>
          failure_result
            (JStr (if JsString.nonempty (error_message error)
                   then error_message error
                   else Messages.unknown_error))
            api_error),
     issued st).

(** [getAIResponse(userId, userMessage)] run on the store
    [conversationHistory]: the result ([None] is [null]), the store
    afterwards and the requests issued.  The only statement of the [try]
    block that could throw before the provider is called is
    [getSystemPrompt()], so the handler has no request to report. *)
Definition getAIResponse (conversationHistory : gmap Z (list Turn))
           (userId : Z) (userMessage : string)
  : option AIResponseResult * gmap Z (list Turn) * Trace :=
  if no_api_key then (None, conversationHistory, [])
  else
    try_catch
      (let history := default [] (conversationHistory !! userId) in
       let messages :=
         ([mkMessage system getSystemPrompt]
            ++ map message_of_turn history
            ++ [mkMessage user userMessage])%list in
       let (response, trace) := callHuggingFace messages in
       match success response, message response with
       | true, Some reply =>
           if JsString.nonempty reply then
             let history :=
               (history ++ [mkTurn turn_user userMessage;
                            mkTurn turn_assistant reply])%list in
             let history :=
               if Nat.ltb MAX_HISTORY (length history)
               then slice_last MAX_HISTORY history
               else history in
             Ok (Some response, <[userId := history]> conversationHistory, trace)
           else Ok (Some response, conversationHistory, trace)
       | _, _ => Ok (Some response, conversationHistory, trace)
       end)
      (fun _ =>
         (Some (failure_result (JStr Messages.unexpected) unknown),
          conversationHistory, [])).

End Call.

(** [clearUserHistory(userId)]. *)
Definition clearUserHistory (conversationHistory : gmap Z (list Turn))
           (userId : Z) : gmap Z (list Turn) :=
  delete userId conversationHistory.

(** One invocation of [getAIResponse] by the bot, with the network it
    meets. *)
Record Invocation := mkInvocation {
  inv_user : Z;
  inv_message : string;
  inv_network : Network
}.

(** The store after a sequence of invocations, each completed before the
    next one starts. *)
Fixpoint run (calls : list Invocation) (store : gmap Z (list Turn))
  : gmap Z (list Turn) :=
  match calls with
  | [] => store
  | c :: rest =>
      run rest
        (getAIResponse (inv_network c) store (inv_user c) (inv_message c)).1.2
  end.

(** The turns of the exchanges that the caller saw answered with a
    non-empty message for [userId], oldest first: an unbounded record of
    what [run] remembers a window of. *)
Fixpoint exchanges (calls : list Invocation) (store : gmap Z (list Turn))
         (userId : Z) : list Turn :=
  match calls with
  | [] => []
  | c :: rest =>
      let '(result, store', _) :=
        getAIResponse (inv_network c) store (inv_user c) (inv_message c) in
      let here :=
        match result with
        | Some (mkResult true (Some reply) _ _) =>
            if (inv_user c =? userId) && JsString.nonempty reply
            then [mkTurn turn_user (inv_message c); mkTurn turn_assistant reply]
            else []
        | _ => []
        end in
      (here ++ exchanges rest store' userId)%list
  end.

End Service.

(** ** Vocabulary of the specification and of the proofs *)

(** What a candidate's answer means for the traversal. *)
Inductive Verdict := Stop | SkipModel | Next.

Definition verdict (o : FetchOutcome) : Verdict :=
  match o with
  | Rejected _ => Next
  | Resolved r =>
      if ok r then Stop
      else if (status r =? 400) && breaks_to_next_model r then SkipModel
      else Next
  end.

(** No request of the trace was answered with a 2xx status. *)
Definition no_success (t : Trace) : Prop :=
  Forall (fun x => match x.2 with
                   | Resolved r => ok r = false
                   | Rejected _ => True
                   end) t.

(** The most recent HTTP response of a trace. *)
Fixpoint last_response (t : Trace) : option Response :=
  match t with
  | [] => None
  | (_, o) :: rest =>
      match last_response rest with
      | Some r => Some r
      | None => match o with Resolved r => Some r | Rejected _ => None end
      end
  end.

(** The exception of the most recent request, when that request failed
    below HTTP. *)
Definition last_rejection (t : Trace) : option JsError :=
  match last t with
  | Some (_, Rejected e) => Some e
  | _ => None
  end.

(** The loop variables agree with the log: [response] is the most recent
    response, [lastResponseText] is its text, and as long as there is no
    response [lastError] is the most recent exception. *)
Definition consistent (st : LoopState) : Prop :=
  response st = last_response (issued st)
  /\ lastResponseText st = match response st with Some r => text r | None => "" end
  /\ (response st = None -> lastError st = last_rejection (issued st)).

(** A trace that ends with its only 2xx answer. *)
Definition ends_with_success (t : Trace) : Prop :=
  exists pre req r,
    t = (pre ++ [(req, Resolved r)])%list /\ no_success pre /\ ok r = true.

(** The error message of an exhausted traversal whose last response is [r],
    in the order of the specification: the [error] field of the body, its
    [message] field, the raw body text, a generic string. *)
Definition spec_error_message (r : Response) : json :=
  let field k := Js.opt_get (body_json r) k in
  if Js.truthy_opt (field "error") then default JNull (field "error")
  else if Js.truthy_opt (field "message") then default JNull (field "message")
  else if JsString.nonempty (text r) then JStr (text r)
  else JStr (generic_api_error (status r) (statusText r)).

(** The message of a failure caused by the exception [e]. *)
Definition exception_message (e : JsError) : json :=
  JStr (if JsString.nonempty (error_message e) then error_message e
        else Messages.unknown_error).

(** One of the generic strings of the service. *)
Definition generic_error (v : json) : Prop :=
  (exists code reason, v = JStr (generic_api_error code reason))
  \/ v = JStr Messages.unknown_error.

(** The failure of an exhausted traversal in the words of the
    specification: classified from the most recent response, the message
    drawn from that response or generic. *)
Definition exhausted_as_specified (t : Trace) (result : AIResponseResult) : Prop :=
  match last_response t with
  | Some r =>
      if status r =? 503 then
        result = failure_result (JStr Messages.warming) provider_unavailable
      else result = failure_result (spec_error_message r) api_error
  | None => exists v, generic_error v /\ result = failure_result v api_error
  end.

(** The same failure as the service classifies it: without any response,
    the message is that of the most recent exception. *)
Definition exhausted_as_classified (t : Trace) (result : AIResponseResult) : Prop :=
  match last_response t with
  | Some r =>
      if status r =? 503 then
        result = failure_result (JStr Messages.warming) provider_unavailable
      else result = failure_result (spec_error_message r) api_error
  | None =>
      exists req e,
        last t = Some (req, Rejected e)
        /\ result = failure_result (exception_message e) api_error
  end.

(** A field that holds a string, or nothing that counts: absent, or a falsy
    value. *)
Definition textual (o : option json) : bool :=
  match o with
  | Some (JStr _) => true
  | _ => negb (Js.truthy_opt o)
  end.

(** The first choice of a chat-completion body. *)
Definition first_choice (data : json) : option json :=
  match Js.get data "choices" with
  | Some (JArr (choice :: _)) => Some choice
  | _ => None
  end.

(** Bodies whose text fields are textual and whose first choice is not
    [null]. *)
Definition textual_body (data : json) : bool :=
  match first_choice data with
  | Some JNull => false
  | choice =>
      textual (Js.opt_get (Js.opt_get choice "message") "content")
      && textual (Js.opt_get choice "text")
  end
  && textual (Js.get data "generated_text")
  && textual (Js.get data "output_text")
  && textual (Js.get data "text").

(** A field read as a non-empty string. *)
Definition non_empty_text (o : option json) : option string :=
  match o with
  | Some (JStr s) => if JsString.nonempty s then Some s else None
  | _ => None
  end.

Fixpoint first_some {A : Type} (l : list (option A)) : option A :=
  match l with
  | [] => None
  | Some a :: _ => Some a
  | None :: rest => first_some rest
  end.

(** A field that is present: neither [undefined] nor [null]. *)
Definition present (o : option json) : option json :=
  match o with
  | None | Some JNull => None
  | Some v => Some v
  end.

(** The shapes of a single object, in order: the first choice of a chat
    completion ([message.content], then [text]), then the legacy fields. *)
Definition object_shapes (data : json) : list (option string) :=
  let choice := first_choice data in
  [ non_empty_text (Js.opt_get (Js.opt_get choice "message") "content");
    non_empty_text (Js.opt_get choice "text");
    non_empty_text (Js.get data "generated_text");
    non_empty_text (Js.get data "output_text");
    non_empty_text (Js.get data "text") ].

(** The extraction in the words of the specification: an ordered list of
    shapes, the first non-empty string wins; a raw object of an array is
    read with the field names of the legacy object. *)
Definition extract_as_specified (data : json) : option string :=
  match data with
  | JObj _ => first_some (object_shapes data)
  | JArr (JStr s :: _) => non_empty_text (Some (JStr s))
  | JArr (JObj fields :: _) =>
      first_some (map (fun k => non_empty_text (Js.assoc k fields))
                      ["generated_text"; "output_text"; "text"])
  | JStr s => non_empty_text (Some data)
  | _ => None
  end.

(** The extraction shape by shape as the service performs it on textual
    bodies: a raw object of an array is read through the first of
    [generated_text], [output_text], [text], [content] that is present, and
    that field decides alone, even when it holds the empty string. *)
Definition extract_by_shape (data : json) : option string :=
  match data with
  | JObj _ => first_some (object_shapes data)
  | JArr (JStr s :: _) => non_empty_text (Some (JStr s))
  | JArr (JObj fields :: _) =>
      match first_some (map (fun k => present (Js.assoc k fields))
                            ["generated_text"; "output_text"; "text"; "content"])
      with
      | Some (JStr s) => Some s
      | _ => None
      end
  | JStr s => non_empty_text (Some data)
  | _ => None
  end.

(** A chat-completion body whose first choice carries the text [s]. *)
Definition chat_completion (data : json) (s : string) : Prop :=
  exists fields others msg,
    Js.get data "choices" = Some (JArr (JObj fields :: others))
    /\ Js.assoc "message" fields = Some (JObj msg)
    /\ Js.assoc "content" msg = Some (JStr s)
    /\ JsString.nonempty s = true.

(** *** The traversal as one pass over the candidate matrix

    The candidate matrix is the list of (model, endpoint) pairs in
    model-major order; each candidate carries the position of its model in
    [modelsToTry], since a model may be listed twice: the [break] of the
    inner loop leaves an entry of the list, not a model. *)

Section Specification.

Variable HF_API_KEY : option string.
Variable env_HF_MODEL : option string.
Variable fetch : Network.

Fixpoint candidates_from (i : nat) (models : list string)
         (eps : list Endpoint) : list (nat * string * Endpoint) :=
  match models with
  | [] => []
  | model :: rest =>
      (map (fun endpoint => (i, model, endpoint)) eps
         ++ candidates_from (S i) rest eps)%list
  end.

Definition candidate_matrix (messages : list ChatMessage)
  : list (nat * string * Endpoint) :=
  candidates_from 0 (modelsToTry env_HF_MODEL)
                  (endpoints messages (buildPrompt messages)).

(** One pass over the matrix: a candidate of the entry being skipped is
    passed over, any other is requested once; a 2xx answer ends the
    pass, a "model not supported" answer that reaches the [break] makes
    the rest of that entry's candidates skipped, anything else moves to the
    next candidate. *)
Fixpoint spec_traverse (cands : list (nat * string * Endpoint))
         (skipping : option nat) (n : nat) : Trace :=
  match cands with
  | [] => []
  | (i, model, endpoint) :: rest =>
      if match skipping with Some j => Nat.eqb i j | None => false end
      then spec_traverse rest skipping n
      else
        let req := request_for HF_API_KEY model endpoint in
        (req, fetch n req)
          :: match verdict (fetch n req) with
             | Stop => []
             | SkipModel => spec_traverse rest (Some i) (S n)
             | Next => spec_traverse rest skipping (S n)
             end
  end.

End Specification.

(** ** Concrete providers *)

Module Examples.

Definition key : option string := Some "hf_example".
Definition prompt : string := "You are Kein.".

Definition answer (code : Z) (reason body_text : string) (parsed : option json)
  : FetchOutcome :=
  Resolved (mkResponse code reason body_text parsed).

(** [{"choices":[{"message":{"role":"assistant","content":"Hi there"}}]}] *)
Definition chat_body : json :=
  JObj [ ("choices",
          JArr [ JObj [ ("message",
                         JObj [ ("role", JStr "assistant");
                                ("content", JStr "Hi there") ]) ] ]) ].

Definition warming : Response := mkResponse 503 "Service Unavailable" "loading" None.
Definition missing : Response := mkResponse 404 "Not Found" "Not Found" None.
Definition completed : Response :=
  mkResponse 200 "OK" "{choices:[{message:{role:assistant,content:Hi there}}]}"
             (Some chat_body).

(** Candidate 1 answers 503, candidate 2 answers 404, candidate 3 answers
    200 with a chat completion; the network is down afterwards. *)
Definition net_third_succeeds : Network :=
  fun n _ =>
    match n with
    | 0%nat => Resolved warming
    | 1%nat => Resolved missing
    | 2%nat => Resolved completed
    | _ => Rejected (Error "fetch failed")
    end.

(** Every request fails below HTTP. *)
Definition net_down : Network := fun _ _ => Rejected (Error "socket hang up").

(** Every request is answered 200 with [{"generated_text":"  "}]. *)
Definition net_blank : Network :=
  fun _ _ =>
    answer 200 "OK" "{generated_text:  }" (Some (JObj [("generated_text", JStr "  ")])).

(** Every request is answered 200 with [{}]. *)
Definition net_empty_object : Network :=
  fun _ _ => answer 200 "OK" "{}" (Some (JObj [])).

(** Every request is answered 500 with [{"error":"overloaded"}]. *)
Definition overloaded : Response :=
  mkResponse 500 "Internal Server Error" "{error:overloaded}"
             (Some (JObj [("error", JStr "overloaded")])).
Definition net_overloaded : Network := fun _ _ => Resolved overloaded.

(** [[{"generated_text":"","output_text":"hi"}]] *)
Definition array_body : json :=
  JArr [ JObj [ ("generated_text", JStr ""); ("output_text", JStr "hi") ] ].

(** [{"generated_text":"Hello"}] *)
Definition legacy_body : json := JObj [ ("generated_text", JStr "Hello") ].

Definition net_legacy : Network :=
  fun _ _ => answer 200 "OK" "{generated_text:Hello}" (Some legacy_body).

(** User 7 sends the messages "m1" to "m6", each answered with "Hello";
    user 8 sends one message in between, and one call of user 7 fails. *)
Definition six_exchanges : list (Z * string * Network) :=
  [ (7, "m1", net_legacy); (7, "m2", net_legacy); (8, "other", net_legacy);
    (7, "m3", net_legacy); (7, "lost", net_down); (7, "m4", net_legacy);
    (7, "m5", net_legacy); (7, "m6", net_legacy) ].

End Examples.

(** * The bot (index.ts)

    The handlers of the Telegram bot that call the service.  A handler is
    run on the conversation store and on the network of the service; what
    it passes to [ctx.reply] is logged in order.  Telegram itself is an
    oracle: [sendChatAction] and the [n]-th awaited [ctx.reply] may
    reject. *)

(** [ctx.from]: the sender of an update. *)
Record Sender := mkSender { sender_id : Z; sender_first_name : string }.

(** What the handlers read of the context: [ctx.from] and the text of
    [ctx.message], each [None] when absent. *)
Record BotContext := mkContext {
  ctx_from : option Sender;
  ctx_text : option string
}.

(** [None] is a call that resolves, [Some e] one that rejects with [e]. *)
Record Telegram := mkTelegram {
  tg_sendChatAction : option JsError;
  tg_reply : nat -> string -> option JsError
}.

(** The branch of a handler that answers. *)
Inductive ReplyKind :=
| ReplyAi (text : string)
| ReplyInsufficientBalance
| ReplySetup
| ReplyAiFailed.

(** What a handler did: the texts passed to [ctx.reply], oldest first, the
    store and the requests of the service, and the exception that left the
    handler, if any. *)
Record Handled := mkHandled {
  replies : list string;
  handled_store : gmap Z (list Turn);
  handled_requests : Trace;
  escaped : option JsError
}.

(** [ctx.from?.id || 0]. *)
Definition sender_or_zero (ctx : BotContext) : Z :=
  match ctx_from ctx with
  | Some sender => if sender_id sender =? 0 then 0 else sender_id sender
  | None => 0
  end.

(** [ctx.from?.first_name || "ламповый человек"]. *)
Definition first_name_or_default (ctx : BotContext) : string :=
  match ctx_from ctx with
  | Some sender =>
      if JsString.nonempty (sender_first_name sender)
      then sender_first_name sender
      else "ламповый человек"
  | None => "ламповый человек"
  end.

(** [message.startsWith("/")]. *)
Definition is_command (message : string) : bool :=
  match message with
  | String c _ => Ascii.eqb c "/"
  | EmptyString => false
  end.

(** The branches of the [/start] handler, in its order. *)
Definition start_choice (aiResponse : option AIResponseResult) : ReplyKind :=
  match aiResponse with
  | Some (mkResult true (Some (String c m)) _ _) => ReplyAi (String c m)
  | _ =>
      match aiResponse with
      | Some (mkResult _ _ _ (Some insufficient_balance)) => ReplyInsufficientBalance
      | None => ReplySetup
      | Some _ => ReplyAiFailed
      end
  end.

(** The branches of the text handler, in its order. *)
Definition text_choice (aiResponse : option AIResponseResult) : ReplyKind :=
  match aiResponse with
  | None => ReplySetup
  | Some result =>
      match success result, message result with
      | true, Some (String c m) => ReplyAi (String c m)
      | _, _ =>
          match errorType result with
          | Some insufficient_balance => ReplyInsufficientBalance
          | _ => ReplyAiFailed
          end
      end
  end.

(** The fixed text of the [catch] block and of [bot.catch]. *)
Definition oops : string :=
  "Упс, что-то пошло не так... Но я уже работаю над этим! 🔧".

Definition greeting (firstName : option string) : string :=
  match firstName with
  | Some (String c name) => "Приветствую, " ++ String c name ++ "! 👋"
  | _ => "Приветствую, ламповое сообщество! 👋"
  end.

Section Bot.

Variable HF_API_KEY : option string.
Variable env_HF_MODEL : option string.
Variable getSystemPrompt : string.

(** [characterConfig.name] of the character module. *)
Variable characterName : string.

(** [AI_ENABLED = !!HF_API_KEY]. *)
Definition AI_ENABLED : bool := negb (no_api_key HF_API_KEY).

(** The body of [GET /health]. *)
Definition health : json :=
  JObj [ ("status", JStr "healthy");
         ("ai_enabled", JBool AI_ENABLED);
         ("ai_provider", JStr "Hugging Face") ].

Definition getProviderSetupMessage (firstName : option string) : string :=
  let prefix := greeting firstName in
  String.concat JsString.LF
    [ prefix;
      "";
      ("Я " ++ characterName ++ ", и я здесь, чтобы общаться с тобой!");
      "";
      "📝 Чтобы я мог отвечать умными ответами с характером, нужно настроить Hugging Face API ключ.";
      "";
      "🔑 Как это сделать:";
      "1. Создай токен на https://huggingface.co/settings/tokens";
      "2. Добавь его в файл .env:";
      "   HF_API_KEY=hf_...";
      "   HF_MODEL=meta-llama/Meta-Llama-3-8B-Instruct";
      "3. Перезапусти бота";
      "";
      "💡 Пока что я работаю без AI, но команды /help и /joke работают! 😄" ].

Definition getInsufficientBalanceMessage (firstName : option string) : string :=
  let prefix := greeting firstName in
  String.concat JsString.LF
    [ prefix;
      "";
      "*стук по столу* Всё!";
      "";
      "Похоже, Hugging Face вернул ошибку: недостаточно квоты или токен недействителен.";
      "";
      "💡 Проверь токен на https://huggingface.co/settings/tokens или попробуй другую бесплатную модель.";
      "";
      "Попробуй еще раз позже? 😊" ].

(** The text a handler passes to [ctx.reply]; [firstName] is given by the
    [/start] handler only. *)
Definition reply_text (firstName : option string) (kind : ReplyKind) : string :=
  match kind with
  | ReplyAi text => text
  | ReplyInsufficientBalance => getInsufficientBalanceMessage firstName
  | ReplySetup => getProviderSetupMessage firstName
  | ReplyAiFailed =>
      String.concat JsString.LF
        [ greeting firstName;
          "";
          "Упс, что-то пошло не так с AI... Попробуй еще раз через секунду? 🔧" ]
  end.

Section Handlers.

Variable fetch : Network.

(** [bot.command("start", ...)]: the handler passes one text to
    [ctx.reply] and ends.  The reply is not awaited, so the handler does
    not see whether Telegram accepts it: what becomes of the reply is not
    part of the record, and [escaped] is about the handler alone. *)
Definition on_start (ctx : BotContext) (store : gmap Z (list Turn)) : Handled :=
  let firstName := first_name_or_default ctx in
  let userId := sender_or_zero ctx in
  let '(aiResponse, store', requests) :=
    getAIResponse HF_API_KEY env_HF_MODEL getSystemPrompt fetch store userId
      ("Привет! Я " ++ firstName ++ ", и я только что начал общаться с тобой.") in
  mkHandled [reply_text (Some firstName) (start_choice aiResponse)]
            store' requests None.

(** The [catch] block of the text handler, entered after [sent] replies. *)
Definition text_catch (tg : Telegram) (sent : list string)
           (store : gmap Z (list Turn)) (requests : Trace) : Handled :=
  mkHandled (sent ++ [oops])%list store requests (tg_reply tg (length sent) oops).

(** [bot.on("text", ...)]. *)
Definition on_text (tg : Telegram) (ctx : BotContext)
           (store : gmap Z (list Turn)) : Handled :=
  let message := default "" (ctx_text ctx) in
  let userId := sender_or_zero ctx in
  if negb (JsString.nonempty message) then mkHandled [] store [] None
  else if is_command message then mkHandled [] store [] None
  else
    match tg_sendChatAction tg with
    | Some _ => text_catch tg [] store []
    | None =>
        let '(aiResponse, store', requests) :=
          getAIResponse HF_API_KEY env_HF_MODEL getSystemPrompt fetch
                        store userId message in
        let text := reply_text None (text_choice aiResponse) in
        match tg_reply tg 0 text with
        | None => mkHandled [text] store' requests None
        | Some _ => text_catch tg [text] store' requests
        end
    end.

End Handlers.

End Bot.

(** ** Vocabulary of the further properties *)

(** A history made of exchanges: a user turn followed by an assistant
    turn, any number of times. *)
Fixpoint is_exchanges (h : list Turn) : bool :=
  match h with
  | [] => true
  | u :: a :: rest =>
      match turn_role u, turn_role a with
      | turn_user, turn_assistant => is_exchanges rest
      | _, _ => false
      end
  | _ => false
  end.

(** A text that is not empty and has no white space at either end. *)
Definition clean_text (s : string) : Prop :=
  JsString.nonempty s = true
  /\ JsString.leading_space s = false
  /\ JsString.trailing_space s = false.

(** The assistant turns of a history hold clean texts. *)
Definition clean_answers (h : list Turn) : Prop :=
  Forall (fun t => turn_role t = turn_assistant -> clean_text (turn_content t)) h.

(** The host every endpoint of the service belongs to. *)
Definition router : string := "https://router.huggingface.co/".

(** The text that a 2xx response yields, when it yields one. *)
Definition usable_text (r : Response) : option string :=
  match body_json r with
  | Some data =>
      match extractGeneratedText data with
      | Ok (Some (JStr s)) => if JsString.nonempty s then Some s else None
      | _ => None
      end
  | None => None
  end.

(** One line of the flattened prompt. *)
Definition prompt_line (m : ChatMessage) : string :=
  roleLabels (role m) ++ ": " ++ content m ++ JsString.LF.

(** A message as the chat-completion request carries it. *)
Definition wire_message (wire_role content : string) : json :=
  JObj [ ("role", JStr wire_role); ("content", JStr content) ].

(** *** The message list as the specification words it *)





(** ** Concrete bots *)

Module Scenarios.

Definition name : string := "Kein".

(** Telegram accepts everything; rejects everything; rejects the first
    reply only. *)
Definition tg_fine : Telegram := mkTelegram None (fun _ _ => None).

Definition tg_deaf : Telegram :=
  mkTelegram (Some (Error "ETELEGRAM")) (fun _ _ => Some (Error "ETELEGRAM")).

Definition tg_flaky : Telegram :=
  mkTelegram None
    (fun n _ => match n with O => Some (Error "ETELEGRAM") | S _ => None end).

Definition ann_says_hello : BotContext :=
  mkContext (Some (mkSender 7 "Ann")) (Some "hello").

Definition ann_asks_a_joke : BotContext :=
  mkContext (Some (mkSender 7 "Ann")) (Some "/joke").

(** User 8 has one exchange behind them. *)
Definition two_users : gmap Z (list Turn) :=
  <[8 := [mkTurn turn_user "hi"; mkTurn turn_assistant "Hello"]]> ∅.

(** Every request is answered 503. *)
Definition net_warming : Network := fun _ _ => Resolved Examples.warming.

(** [{"error":{"code":"model_not_supported","message":"not supported"}}] *)
Definition unsupported : Response :=
  mkResponse 400 "Bad Request" "{error:{code:model_not_supported}}"
    (Some (JObj [ ("error",
                   JObj [ ("code", JStr "model_not_supported");
                          ("message", JStr "not supported") ]) ])).

(** The first request is answered "model not supported", the others 200
    with a legacy body. *)
Definition net_unsupported_first : Network :=
  fun n req =>
    match n with
    | O => Resolved unsupported
    | S _ => Examples.net_legacy n req
    end.

(** The first request is answered "model not supported", the others 404. *)
Definition net_unsupported_then_missing : Network :=
  fun n _ =>
    match n with
    | O => Resolved unsupported
    | S _ => Resolved Examples.missing
    end.

(** [{"error":{"code":"model_not_supported","message":{"toString":null}}}]:
    the message has no string. *)
Definition unsupported_unprintable : Response :=
  mkResponse 400 "Bad Request"
    "{error:{code:model_not_supported,message:{toString:null}}}"
    (Some (JObj [ ("error",
                   JObj [ ("code", JStr "model_not_supported");
                          ("message", JObj [ ("toString", JNull) ]) ]) ])).

Definition net_unprintable_first : Network :=
  fun n _ =>
    match n with
    | O => Resolved unsupported_unprintable
    | S _ => Resolved Examples.missing
    end.

(** [{"choices":[null]}] *)
Definition null_choice : json := JObj [ ("choices", JArr [JNull]) ].

End Scenarios.

(** * Properties *)

Local Close Scope string_scope.
Local Close Scope Z_scope.

(** ** [trim] leaves no white space at either end *)

Lemma strip_clean back : forall n l,
  length l <= n -> JsString.starts_with_space back (JsString.strip back l) = false.
Proof.
  induction n as [|n IH]; intros l Hlen.
  - destruct l; [reflexivity | simpl in Hlen; lia].
  - destruct l as [|c1 [|c2 [|c3 l3]]]; simpl in *.
    + reflexivity.
    + destruct (JsString.ws1 c1) eqn:E1; [reflexivity|]. simpl. now rewrite E1.
    + destruct (JsString.ws1 c1) eqn:E1.
      { destruct (JsString.ws1 c2) eqn:E2; [reflexivity|]. simpl. now rewrite E2. }
      destruct (if back then JsString.ws2 c2 c1 else JsString.ws2 c1 c2) eqn:E2;
        [reflexivity|].
      simpl. now rewrite E1, E2.
    + destruct (JsString.ws1 c1) eqn:E1.
      { apply (IH (c2 :: c3 :: l3)). simpl. lia. }
      destruct (if back then JsString.ws2 c2 c1 else JsString.ws2 c1 c2) eqn:E2.
      { apply (IH (c3 :: l3)). simpl. lia. }
      destruct (if back then JsString.ws3 c3 c2 c1 else JsString.ws3 c1 c2 c3) eqn:E3.
      { apply IH. lia. }
      simpl. now rewrite E1, E2, E3.
Qed.

Lemma strip_suffix back : forall n l,
  length l <= n -> exists p, l = p ++ JsString.strip back l.
Proof.
  induction n as [|n IH]; intros l Hlen.
  - destruct l; [exists []; reflexivity | simpl in Hlen; lia].
  - destruct l as [|c1 [|c2 [|c3 l3]]]; simpl in *.
    + exists []. reflexivity.
    + destruct (JsString.ws1 c1); [exists [c1] | exists []]; reflexivity.
    + destruct (JsString.ws1 c1).
      { destruct (JsString.ws1 c2); [exists [c1; c2] | exists [c1]]; reflexivity. }
      destruct (if back then JsString.ws2 c2 c1 else JsString.ws2 c1 c2);
        [exists [c1; c2] | exists []]; reflexivity.
    + destruct (JsString.ws1 c1).
      { destruct (IH (c2 :: c3 :: l3)) as [p Hp]; [simpl; lia|].
        exists (c1 :: p). simpl. f_equal. exact Hp. }
      destruct (if back then JsString.ws2 c2 c1 else JsString.ws2 c1 c2).
      { destruct (IH (c3 :: l3)) as [p Hp]; [simpl; lia|].
        exists (c1 :: c2 :: p). simpl. do 2 f_equal. exact Hp. }
      destruct (if back then JsString.ws3 c3 c2 c1 else JsString.ws3 c1 c2 c3).
      { destruct (IH l3) as [p Hp]; [lia|].
        exists (c1 :: c2 :: c3 :: p). simpl. do 3 f_equal. exact Hp. }
      exists []. reflexivity.
Qed.

Lemma starts_with_space_app back l k :
  JsString.starts_with_space back l = true ->
  JsString.starts_with_space back (l ++ k) = true.
Proof.
  destruct l as [|c1 [|c2 [|c3 l3]]]; simpl; intros H.
  - discriminate.
  - rewrite orb_false_r in H. now rewrite H.
  - rewrite orb_false_r in H. apply orb_true_iff in H. destruct H as [-> | ->].
    + reflexivity.
    + simpl. apply orb_true_r.
  - exact H.
Qed.

(** The result of [trim] neither starts nor ends with white space. *)
Lemma trim_clean s :
  JsString.leading_space (JsString.trim s) = false
  /\ JsString.trailing_space (JsString.trim s) = false.
Proof.
  unfold JsString.leading_space, JsString.trailing_space, JsString.trim,
    JsString.trimStart, JsString.trimEnd.
  rewrite !list_ascii_of_string_of_list_ascii. split.
  - eapply strip_clean. reflexivity.
  - set (R := JsString.strip true (List.rev (list_ascii_of_string s))).
    destruct (strip_suffix false _ (List.rev R) (Nat.le_refl _)) as [p Hp].
    set (S := JsString.strip false (List.rev R)) in *.
    assert (HR : R = List.rev S ++ List.rev p).
    { rewrite <- List.rev_app_distr, <- Hp. symmetry. apply List.rev_involutive. }
    destruct (JsString.starts_with_space true (List.rev S)) eqn:E; [|reflexivity].
    apply (starts_with_space_app true _ (List.rev p)) in E.
    rewrite <- HR in E. subst R.
    rewrite (strip_clean true _ _ (Nat.le_refl _)) in E. discriminate.
Qed.

(** ** Traces *)

Lemma last_response_resolved (t : Trace) req r :
  last_response (t ++ [(req, Resolved r)]) = Some r.
Proof.
  induction t as [|[q o] t IH]; simpl; [reflexivity|].
  now rewrite IH.
Qed.

Lemma last_response_rejected (t : Trace) req e :
  last_response (t ++ [(req, Rejected e)]) = last_response t.
Proof.
  induction t as [|[q o] t IH]; simpl; [reflexivity|].
  now rewrite IH.
Qed.

Lemma last_response_In (t : Trace) r :
  last_response t = Some r -> exists req, In (req, Resolved r) t.
Proof.
  induction t as [|[q o] t IH]; simpl; [discriminate|].
  destruct (last_response t) as [r'|] eqn:E.
  - intros [= <-]. destruct (IH eq_refl) as [req Hreq]. eauto.
  - destruct o as [r'|e]; [|discriminate].
    intros [= <-]. eauto.
Qed.

Lemma last_response_none_last (t : Trace) req o :
  last_response t = None -> last t = Some (req, o) -> exists e, o = Rejected e.
Proof.
  induction t as [|[q o'] t IH]; simpl; [discriminate|].
  destruct (last_response t) eqn:E; [discriminate|].
  destruct o' as [r|e]; [discriminate|]. intros _.
  destruct t as [|x t].
  - simpl. intros [= <- <-]. eauto.
  - intros H. apply IH; [reflexivity|]. exact H.
Qed.

Lemma no_success_snoc_rejected (t : Trace) req e :
  no_success t -> no_success (t ++ [(req, Rejected e)]).
Proof.
  intros H. apply Forall_app. split; [exact H|].
  constructor; [exact I | constructor].
Qed.

Lemma no_success_snoc_resolved (t : Trace) req r :
  no_success t -> ok r = false -> no_success (t ++ [(req, Resolved r)]).
Proof.
  intros H Hr. apply Forall_app. split; [exact H|].
  constructor; [exact Hr | constructor].
Qed.

Lemma no_success_resolved (t : Trace) req r :
  no_success t -> In (req, Resolved r) t -> ok r = false.
Proof.
  intros H Hin. unfold no_success in H. rewrite List.Forall_forall in H.
  exact (H _ Hin).
Qed.

(** ** The loop variables follow the log *)

Lemma consistent_initial : consistent initial_loop.
Proof. repeat split. Qed.

Lemma consistent_fail_request req e st :
  consistent st -> consistent (fail_request req e st).
Proof.
  intros (Hr & Ht & He). unfold consistent; simpl.
  rewrite last_response_rejected. repeat split; [exact Hr | exact Ht |].
  intros _. unfold last_rejection. now rewrite last_snoc.
Qed.

Lemma consistent_receive req r st : consistent (receive req r st).
Proof.
  unfold consistent; simpl. rewrite last_response_resolved.
  repeat split. discriminate.
Qed.

Lemma consistent_set_lastError e st :
  consistent st -> response st <> None -> consistent (set_lastError e st).
Proof.
  intros (Hr & Ht & He) Hne. unfold consistent; simpl.
  repeat split; [exact Hr | exact Ht |]. intros H. contradiction.
Qed.

Lemma consistent_set_found model st :
  consistent st -> response st <> None -> consistent (set_found model st).
Proof.
  intros (Hr & Ht & He) Hne. unfold consistent; simpl.
  repeat split; [exact Hr | exact Ht |]. intros H. contradiction.
Qed.

Create HintDb loops.

#[local] Hint Resolve consistent_initial consistent_fail_request consistent_receive
  consistent_set_lastError consistent_set_found
  no_success_snoc_rejected no_success_snoc_resolved : loops.

Section Loops.

Variable HF_API_KEY : option string.
Variable fetch : Network.

(** What one run of the inner loop does to the log and to the loop
    variables. *)
Lemma endpoint_loop_inv model eps : forall st,
  consistent st -> no_success (issued st) ->
  let res := endpoint_loop HF_API_KEY fetch model eps st in
  consistent res.1
  /\ (exists ext, issued res.1 = issued st ++ ext /\ (eps <> [] -> ext <> []))
  /\ (if res.2 then ends_with_success (issued res.1) else no_success (issued res.1)).
Proof.
  induction eps as [|ep eps IH]; intros st Hc Hn; simpl.
  - split; [exact Hc|]. split; [|exact Hn].
    exists []. rewrite app_nil_r. split; [reflexivity | congruence].
  - set (req := request_for HF_API_KEY model ep).
    assert (Hext : forall st1 o,
               issued st1 = issued st ++ [(req, o)] ->
               forall res : LoopState * bool,
                 (exists ext, issued res.1 = issued st1 ++ ext /\ (eps <> [] -> ext <> [])) ->
                 exists ext, issued res.1 = issued st ++ ext
                             /\ (ep :: eps <> [] -> ext <> [])).
    { intros st1 o Hst1 res (ext & Hext & _). exists ((req, o) :: ext).
      rewrite Hext, Hst1, <- app_assoc. simpl. split; [reflexivity | discriminate]. }
    destruct (fetch (length (issued st)) req) as [r|e] eqn:Hf.
    + pose proof (consistent_receive req r st) as Hc1.
      assert (Hne : response (receive req r st) <> None) by discriminate.
      destruct (ok r) eqn:Hok.
      { simpl. split; [auto with loops|]. split.
        - exists [(req, Resolved r)]. split; [reflexivity | discriminate].
        - exists (issued st), req, r. auto. }
      assert (Hn1 : no_success (issued (receive req r st)))
        by (simpl; auto with loops).
      assert (Hgo : forall st1,
                 consistent st1 -> no_success (issued st1) ->
                 issued st1 = issued st ++ [(req, Resolved r)] ->
                 let res := endpoint_loop HF_API_KEY fetch model eps st1 in
                 consistent res.1
                 /\ (exists ext, issued res.1 = issued st ++ ext
                                 /\ (ep :: eps <> [] -> ext <> []))
                 /\ (if res.2 then ends_with_success (issued res.1)
                     else no_success (issued res.1))).
      { intros st1 Hc' Hn' Hi. destruct (IH st1 Hc' Hn') as (A & B & C).
        split; [exact A|]. split; [|exact C].
        eapply Hext; eauto. }
      destruct (Z.eqb (status r) 503); [apply Hgo; auto|].
      destruct (Z.eqb (status r) 410); [apply Hgo; auto|].
      destruct (Z.eqb (status r) 404); [apply Hgo; auto with loops|].
      destruct (Z.eqb (status r) 400 && breaks_to_next_model r).
      { simpl. split; [exact Hc1|]. split; [|exact Hn1].
        exists [(req, Resolved r)]. split; [reflexivity | discriminate]. }
      apply Hgo; auto with loops.
    + destruct (IH (fail_request req e st)) as (A & B & C);
        [auto with loops | simpl; auto with loops |].
      split; [exact A|]. split; [|exact C].
      eapply Hext; eauto. reflexivity.
Qed.

Lemma model_loop_inv eps models : forall st,
  consistent st -> no_success (issued st) ->
  let st' := model_loop HF_API_KEY fetch eps models st in
  consistent st'
  /\ (exists ext, issued st' = issued st ++ ext
                  /\ (eps <> [] -> models <> [] -> ext <> []))
  /\ (ends_with_success (issued st') \/ no_success (issued st')).
Proof.
  induction models as [|model models IH]; intros st Hc Hn; simpl.
  - split; [exact Hc|]. split; [|right; exact Hn].
    exists []. rewrite app_nil_r. split; [reflexivity | congruence].
  - pose proof (endpoint_loop_inv model eps st Hc Hn) as (A & (ext & Hext & Hne) & C).
    destruct (endpoint_loop HF_API_KEY fetch model eps st) as [st1 b]; simpl in *.
    destruct b.
    + split; [exact A|]. split; [|left; exact C].
      exists ext. split; [exact Hext | auto].
    + destruct (IH st1 A C) as (A' & (ext' & Hext' & _) & C').
      split; [exact A'|]. split; [|exact C'].
      exists (ext ++ ext'). rewrite Hext', Hext, app_assoc.
      split; [reflexivity|]. intros He _ Habs.
      apply app_eq_nil in Habs. destruct Habs as [Habs _]. now apply Hne.
Qed.

(** *** The two loops against the pass over the candidate matrix *)

Lemma spec_traverse_skip i model eps rest n :
  spec_traverse HF_API_KEY fetch
    (map (fun endpoint => (i, model, endpoint)) eps ++ rest) (Some i) n
  = spec_traverse HF_API_KEY fetch rest (Some i) n.
Proof.
  induction eps as [|ep eps IH]; simpl; [reflexivity|].
  now rewrite Nat.eqb_refl.
Qed.

Lemma endpoint_loop_refines i model eps : forall st skipping rest,
  match skipping with Some j => Nat.eqb i j | None => false end = false ->
  let res := endpoint_loop HF_API_KEY fetch model eps st in
  exists skipping',
    (skipping' = skipping \/ skipping' = Some i)
    /\ issued st
       ++ spec_traverse HF_API_KEY fetch
            (map (fun endpoint => (i, model, endpoint)) eps ++ rest)
            skipping (length (issued st))
       = issued res.1
         ++ (if res.2 then []
             else spec_traverse HF_API_KEY fetch rest skipping'
                    (length (issued res.1))).
Proof.
  induction eps as [|ep eps IH]; intros st skipping rest Hskip; simpl.
  - exists skipping. split; [left; reflexivity | reflexivity].
  - rewrite Hskip.
    set (req := request_for HF_API_KEY model ep).
    assert (Hnext : forall o st1,
               issued st1 = issued st ++ [(req, o)] ->
               let res := endpoint_loop HF_API_KEY fetch model eps st1 in
               exists skipping',
                 (skipping' = skipping \/ skipping' = Some i)
                 /\ issued st
                    ++ (req, o)
                       :: spec_traverse HF_API_KEY fetch
                            (map (fun endpoint => (i, model, endpoint)) eps ++ rest)
                            skipping (S (length (issued st)))
                    = issued res.1
                      ++ (if res.2 then []
                          else spec_traverse HF_API_KEY fetch rest skipping'
                                 (length (issued res.1)))).
    { intros o st1 Hst1.
      destruct (IH st1 skipping rest Hskip) as (sk & Hsk & Heq).
      exists sk. split; [exact Hsk|]. rewrite <- Heq, Hst1.
      rewrite length_app, <- app_assoc. simpl.
      now replace (length (issued st) + 1) with (S (length (issued st))) by lia. }
    destruct (fetch (length (issued st)) req) as [r|e] eqn:Hf; simpl.
    + destruct (ok r) eqn:Hok; simpl.
      { exists skipping. split; [left; reflexivity | now rewrite app_nil_r]. }
      destruct (Z.eqb_spec (status r) 503) as [E503|_].
      { rewrite E503. simpl. now apply Hnext. }
      destruct (Z.eqb_spec (status r) 410) as [E410|_].
      { rewrite E410. simpl. now apply Hnext. }
      destruct (Z.eqb_spec (status r) 404) as [E404|_].
      { rewrite E404. simpl. now apply Hnext. }
      destruct (Z.eqb (status r) 400 && breaks_to_next_model r); simpl.
      * exists (Some i). split; [right; reflexivity|].
        rewrite spec_traverse_skip, length_app, <- app_assoc. simpl.
        now replace (length (issued st) + 1) with (S (length (issued st))) by lia.
      * now apply Hnext.
    + now apply Hnext.
Qed.

Lemma model_loop_refines eps models : forall i st skipping,
  (forall j, skipping = Some j -> j < i) ->
  issued st
  ++ spec_traverse HF_API_KEY fetch (candidates_from i models eps) skipping
       (length (issued st))
  = issued (model_loop HF_API_KEY fetch eps models st).
Proof.
  induction models as [|model models IH]; intros i st skipping Hlt; simpl.
  - apply app_nil_r.
  - destruct (endpoint_loop_refines i model eps st skipping
                (candidates_from (S i) models eps)) as (sk & Hsk & Heq).
    { destruct skipping as [j|]; [|reflexivity].
      apply Nat.eqb_neq. specialize (Hlt j eq_refl). lia. }
    rewrite Heq.
    destruct (endpoint_loop HF_API_KEY fetch model eps st) as [st1 b]; simpl.
    destruct b; [apply app_nil_r|].
    apply IH. intros j Hj. destruct Hsk as [->| ->].
    + specialize (Hlt j Hj). lia.
    + injection Hj as <-. lia.
Qed.

End Loops.

(** ** [callHuggingFace] and [getAIResponse], step by step *)

Section Properties.

Variable HF_API_KEY : option string.
Variable env_HF_MODEL : option string.
Variable getSystemPrompt : string.

Local Abbreviation no_key := (no_api_key HF_API_KEY).
Local Abbreviation callHF := (callHuggingFace HF_API_KEY env_HF_MODEL).
Local Abbreviation getAI :=
  (getAIResponse HF_API_KEY env_HF_MODEL getSystemPrompt).

(** The messages that [getAIResponse] hands to [callHuggingFace]. *)
Local Abbreviation messages_for store userId userMessage :=
  ([mkMessage system getSystemPrompt]
     ++ map message_of_turn (default [] (store !! userId))
     ++ [mkMessage user userMessage]).

(** The state in which the two loops leave the local variables. *)
Local Abbreviation final_loop fetch messages :=
  (model_loop HF_API_KEY fetch (endpoints messages (buildPrompt messages))
              (modelsToTry env_HF_MODEL) initial_loop).

Lemma callHuggingFace_eq fetch messages :
  no_key = false ->
  callHF fetch messages
  = (try_catch (conclude (final_loop fetch messages))
               (fun e => failure_result (exception_message e) api_error),
     issued (final_loop fetch messages)).
Proof. intros H. unfold callHuggingFace. now rewrite H. Qed.

Lemma final_loop_inv fetch messages :
  let st := final_loop fetch messages in
  consistent st
  /\ issued st <> []
  /\ (ends_with_success (issued st) \/ no_success (issued st)).
Proof.
  pose proof (model_loop_inv HF_API_KEY fetch
                (endpoints messages (buildPrompt messages))
                (modelsToTry env_HF_MODEL) initial_loop
                consistent_initial (List.Forall_nil _)) as (A & (ext & Hext & Hne) & C).
  split; [exact A|]. split; [|exact C].
  rewrite Hext. simpl. apply Hne; discriminate.
Qed.

(** Case analysis along the branches of [conclude]; the branches that end
    in a failure are closed by [discriminate] where that applies, the
    success branch is left with the extracted string [s]. *)
Ltac conclude_cases st s Hs :=
  unfold conclude;
  destruct (response st) as [?r|]; simpl; [|try discriminate];
  destruct (Z.eqb (status _) 503); simpl; [try discriminate|];
  destruct (negb (ok _)); simpl; [try discriminate|];
  unfold read_generated_text;
  destruct (body_json _) as [?data|]; simpl; [|try discriminate];
  destruct (extractGeneratedText _) as [[[| | |s| |]|]|?e]; simpl;
  try discriminate;
  destruct (JsString.nonempty s) eqn:Hs; simpl; try discriminate.

Lemma conclude_errorType st :
  errorType (try_catch (conclude st)
               (fun e => failure_result (exception_message e) api_error))
  <> Some insufficient_balance.
Proof. conclude_cases st s Hs. Qed.

(** A result with [success: true] carries the trimmed text of a non-empty
    string. *)
Lemma conclude_success st :
  let result :=
    try_catch (conclude st)
      (fun e => failure_result (exception_message e) api_error) in
  success result = true ->
  exists s, JsString.nonempty s = true /\ result = success_result (JsString.trim s).
Proof.
  conclude_cases st s Hs.
  intros _. exists s. split; [exact Hs | reflexivity].
Qed.

(** The message of a successful result has no white space at either end
    (it may be empty). *)
Lemma success_message_is_trimmed fetch messages reply :
  success (callHF fetch messages).1 = true ->
  message (callHF fetch messages).1 = Some reply ->
  JsString.leading_space reply = false /\ JsString.trailing_space reply = false.
Proof.
  destruct no_key eqn:Hk.
  - unfold callHuggingFace. rewrite Hk. discriminate.
  - rewrite callHuggingFace_eq by exact Hk. cbn [fst]. intros Hok Hmsg.
    destruct (conclude_success _ Hok) as (s & _ & Heq).
    rewrite Heq in Hmsg. injection Hmsg as <-. apply trim_clean.
Qed.

Lemma callHuggingFace_errorType fetch messages :
  errorType (callHF fetch messages).1 <> Some insufficient_balance.
Proof.
  unfold callHuggingFace. destruct no_key; simpl; [discriminate|].
  apply conclude_errorType.
Qed.

(** With a credential, [getAIResponse] returns what [callHuggingFace]
    returns for the messages built from the stored history, and issues
    the same requests. *)
Lemma getAIResponse_calls fetch store userId userMessage :
  no_key = false ->
  (getAI fetch store userId userMessage).1.1
    = Some (callHF fetch (messages_for store userId userMessage)).1
  /\ (getAI fetch store userId userMessage).2
    = (callHF fetch (messages_for store userId userMessage)).2.
Proof.
  intros H. unfold getAIResponse. rewrite H.
  destruct (callHF fetch (messages_for store userId userMessage)) as [resp trace].
  simpl. destruct (success resp); [|split; reflexivity].
  destruct (message resp) as [reply|]; [|split; reflexivity].
  destruct (JsString.nonempty reply); split; reflexivity.
Qed.

Lemma slice_last_short {A : Type} (n : nat) (l : list A) :
  length l <= n -> slice_last n l = l.
Proof.
  intros H. unfold slice_last.
  replace (length l - n) with 0 by lia. reflexivity.
Qed.

(** What [getAIResponse] does to the store, read off its result. *)
Lemma getAIResponse_store fetch store userId userMessage :
  (getAI fetch store userId userMessage).1.2
  = match (getAI fetch store userId userMessage).1.1 with
    | Some (mkResult true (Some reply) _ _) =>
        if JsString.nonempty reply then
          <[userId :=
              slice_last MAX_HISTORY
                (default [] (store !! userId)
                   ++ [mkTurn turn_user userMessage; mkTurn turn_assistant reply])]>
            store
        else store
    | _ => store
    end.
Proof.
  unfold getAIResponse. destruct no_key; [reflexivity|].
  destruct (callHF fetch (messages_for store userId userMessage)) as [resp trace].
  destruct resp as [[|] [reply|] err ty]; simpl; try reflexivity.
  destruct (JsString.nonempty reply) eqn:Hreply; simpl; rewrite ?Hreply;
    [|reflexivity].
  destruct (Nat.ltb MAX_HISTORY _) eqn:E; [reflexivity|].
  apply Nat.ltb_ge in E. rewrite slice_last_short; [reflexivity|].
  rewrite length_app in *. simpl in *. exact E.
Qed.

(** The requests issued are those of one pass over the candidate
    matrix. *)
Lemma callHuggingFace_trace fetch messages :
  no_key = false ->
  (callHF fetch messages).2
  = spec_traverse HF_API_KEY fetch (candidate_matrix env_HF_MODEL messages) None 0.
Proof.
  intros H. rewrite callHuggingFace_eq by exact H. cbn [fst snd].
  symmetry. apply (model_loop_refines HF_API_KEY fetch _ _ 0 initial_loop None).
  discriminate.
Qed.

Lemma spec_traverse_step fetch i model endpoint rest n :
  spec_traverse HF_API_KEY fetch ((i, model, endpoint) :: rest) None n
  = (request_for HF_API_KEY model endpoint,
     fetch n (request_for HF_API_KEY model endpoint))
      :: match verdict (fetch n (request_for HF_API_KEY model endpoint)) with
         | Stop => []
         | SkipModel => spec_traverse HF_API_KEY fetch rest (Some i) (S n)
         | Next => spec_traverse HF_API_KEY fetch rest None (S n)
         end.
Proof. reflexivity. Qed.

Lemma spec_traverse_all_next fetch cands : forall n,
  (forall k req, verdict (fetch k req) = Next) ->
  map fst (spec_traverse HF_API_KEY fetch cands None n)
  = map (fun c => request_for HF_API_KEY c.1.2 c.2) cands.
Proof.
  induction cands as [|[[i model] ep] cands IH]; intros n Hnext; simpl;
    [reflexivity|].
  rewrite Hnext. simpl. f_equal. now apply IH.
Qed.

Lemma ok_not_503 r : ok r = true -> Z.eqb (status r) 503 = false.
Proof.
  unfold ok. intros H. apply andb_true_iff in H. destruct H as [_ H].
  apply Z.leb_le in H. apply Z.eqb_neq. lia.
Qed.

Lemma last_response_last (t : Trace) req r :
  last t = Some (req, Resolved r) -> last_response t = Some r.
Proof.
  intros H. apply last_Some in H. destruct H as [t' ->].
  apply last_response_resolved.
Qed.

(** The result when the traversal ended on a 2xx response. *)
Lemma callHuggingFace_on_success fetch messages req r :
  no_key = false ->
  last (callHF fetch messages).2 = Some (req, Resolved r) ->
  ok r = true ->
  (callHF fetch messages).1
  = try_catch (read_generated_text r)
              (fun e => failure_result (exception_message e) api_error).
Proof.
  intros H Hlast Hok. rewrite callHuggingFace_eq in * by exact H.
  cbn [fst snd] in *.
  destruct (final_loop_inv fetch messages) as ((Hresp & _) & _).
  apply last_response_last in Hlast. rewrite <- Hresp in Hlast.
  unfold conclude. rewrite Hlast, (ok_not_503 r Hok), Hok. reflexivity.
Qed.

Lemma errorMessage_spec r : errorMessage r (text r) = spec_error_message r.
Proof.
  unfold errorMessage, spec_error_message, Js.or.
  destruct (Js.truthy_opt (Js.opt_get (body_json r) "error")) eqn:E1.
  { destruct (Js.opt_get (body_json r) "error"); [reflexivity | discriminate]. }
  destruct (Js.truthy_opt (Js.opt_get (body_json r) "message")) eqn:E2.
  { destruct (Js.opt_get (body_json r) "message"); [reflexivity | discriminate]. }
  assert (E3 : Js.opt_get (Js.opt_get (body_json r) "error") "message" = None).
  { destruct (Js.opt_get (body_json r) "error") as [[| | | |items|fields]|];
      try reflexivity; simpl in E1; discriminate. }
  rewrite E3. simpl. destruct (JsString.nonempty (text r)); reflexivity.
Qed.

(** The result when the traversal ended without any 2xx response. *)
Lemma callHuggingFace_exhausted fetch messages :
  no_key = false ->
  no_success (callHF fetch messages).2 ->
  exhausted_as_classified (callHF fetch messages).2 (callHF fetch messages).1.
Proof.
  intros H Hno. rewrite callHuggingFace_eq in * by exact H.
  cbn [fst snd] in *.
  destruct (final_loop_inv fetch messages) as ((Hresp & Htext & Herr) & Hne & _).
  unfold exhausted_as_classified, conclude. rewrite <- Hresp.
  destruct (response (final_loop fetch messages)) as [r|] eqn:Er.
  - symmetry in Hresp. destruct (last_response_In _ _ Hresp) as [req Hin].
    pose proof (no_success_resolved _ _ _ Hno Hin) as Hok.
    destruct (Z.eqb (status r) 503); [reflexivity|].
    rewrite Hok, Htext. cbn [negb]. now rewrite errorMessage_spec.
  - rewrite (Herr eq_refl). unfold last_rejection.
    destruct (last (issued (final_loop fetch messages))) as [[req o]|] eqn:El.
    + destruct (last_response_none_last _ req o (eq_sym Hresp) El) as [e ->].
      exists req, e. split; reflexivity.
    + apply last_None in El. contradiction.
Qed.

(** ** Traversal of the candidate matrix *)

Lemma extract_chat_completion data s :
  chat_completion data s -> extractGeneratedText data = Ok (Some (JStr s)).
Proof.
  intros (fields & others & msg & Hchoices & Hmsg & Hcontent & Hs).
  destruct data as [| | | | |obj]; try discriminate.
  unfold extractGeneratedText, extract_object. cbn [Js.truthy negb Js.is_object].
  rewrite Hchoices. unfold extract_choice, Js.member. cbn [Js.get bind].
  rewrite Hmsg. cbn [Js.truthy_opt Js.truthy Js.opt_get Js.get].
  rewrite Hcontent. cbn [Js.truthy_opt Js.truthy]. rewrite Hs. reflexivity.
Qed.

(** C6. A 2xx answer ends the traversal at once: it is the last request of
    the call.  In particular, when candidate 1 answers 503, candidate 2
    answers 404 and candidate 3 answers 2xx with a chat-completion body,
    the result is [success: true] with the extracted text (trimmed) and
    exactly these three requests were issued. *)
Theorem first_success_ends_traversal fetch messages :
  no_api_key HF_API_KEY = false ->
  let out := callHuggingFace HF_API_KEY env_HF_MODEL fetch messages in
  (forall i req r,
      out.2 !! i = Some (req, Resolved r) -> ok r = true -> length out.2 = S i)
  /\ (forall r1 r2 r3 data s,
        (forall req, fetch 0 req = Resolved r1) -> status r1 = 503%Z ->
        (forall req, fetch 1 req = Resolved r2) -> status r2 = 404%Z ->
        (forall req, fetch 2 req = Resolved r3) -> ok r3 = true ->
        body_json r3 = Some data -> chat_completion data s ->
        out.1 = success_result (JsString.trim s)
        /\ exists q1 q2 q3,
            out.2 = [(q1, Resolved r1); (q2, Resolved r2); (q3, Resolved r3)]).
Proof.
  intros H. split.
  - intros i req r Hi Hok.
    assert (Hends : ends_with_success (callHF fetch messages).2
                    \/ no_success (callHF fetch messages).2).
    { rewrite callHuggingFace_eq by exact H. cbn [fst snd].
      apply final_loop_inv. }
    destruct Hends as [(pre & q & r' & Heq & Hpre & _)|Hno].
    + rewrite Heq in *. rewrite length_app. cbn [length].
      destruct (Nat.lt_ge_cases i (length pre)) as [Hlt|Hge].
      * rewrite lookup_app_l in Hi by exact Hlt.
        apply list_elem_of_lookup_2, list_elem_of_In in Hi.
        rewrite (no_success_resolved _ _ _ Hpre Hi) in Hok. discriminate.
      * apply lookup_lt_Some in Hi. rewrite length_app in Hi. cbn [length] in Hi.
        lia.
    + apply list_elem_of_lookup_2, list_elem_of_In in Hi.
      rewrite (no_success_resolved _ _ _ Hno Hi) in Hok. discriminate.
  - intros r1 r2 r3 data s F1 S1 F2 S2 F3 Hok Hdata Hchat.
    assert (V1 : ok r1 = false /\ (Z.eqb (status r1) 400 && breaks_to_next_model r1) = false)
      by (unfold ok; rewrite S1; split; reflexivity).
    assert (V2 : ok r2 = false /\ (Z.eqb (status r2) 400 && breaks_to_next_model r2) = false)
      by (unfold ok; rewrite S2; split; reflexivity).
    destruct V1 as [V1 V1'], V2 as [V2 V2'].
    assert (Htrace : exists q1 q2 q3,
               (callHF fetch messages).2
               = [(q1, Resolved r1); (q2, Resolved r2); (q3, Resolved r3)]).
    { rewrite callHuggingFace_trace by exact H.
      unfold candidate_matrix, modelsToTry, endpoints.
      cbn [candidates_from map app].
      rewrite spec_traverse_step, F1. cbn [verdict]. rewrite V1, V1'.
      rewrite spec_traverse_step, F2. cbn [verdict]. rewrite V2, V2'.
      rewrite spec_traverse_step, F3. cbn [verdict]. rewrite Hok.
      do 3 eexists. reflexivity. }
    split; [|exact Htrace].
    destruct Htrace as (q1 & q2 & q3 & Htrace).
    rewrite (callHuggingFace_on_success fetch messages q3 r3 H);
      [|rewrite Htrace; reflexivity | exact Hok].
    unfold read_generated_text. rewrite Hdata, (extract_chat_completion _ _ Hchat).
    destruct Hchat as (_ & _ & _ & _ & _ & _ & Hs). cbn [bind try_catch].
    rewrite Hs. reflexivity.
Qed.

(** C8, as the service has it. When the candidate matrix is exhausted
    with no 2xx answer and at least one HTTP response was received, the
    result is a failure classified from the most recent response:
    [provider_unavailable] with the warming message when its status is
    503, otherwise [api_error] with the message drawn, in this order, from
    the [error] field of its body, the [message] field, the raw body text,
    and the generic string.  When every request failed below HTTP, the
    result is [api_error] with the message of the most recent exception. *)
Theorem exhausted_traversal_is_classified fetch messages :
  no_api_key HF_API_KEY = false ->
  let out := callHuggingFace HF_API_KEY env_HF_MODEL fetch messages in
  no_success out.2 -> exhausted_as_classified out.2 out.1.
Proof. apply callHuggingFace_exhausted. Qed.

(** ** The messages handed to the provider *)

Lemma candidates_from_In c eps : forall models i,
  In c (candidates_from i models eps) -> In c.1.2 models /\ In c.2 eps.
Proof.
  induction models as [|model models IH]; intros i; simpl; [contradiction|].
  intros Hin. apply in_app_or in Hin. destruct Hin as [Hin|Hin].
  - apply in_map_iff in Hin. destruct Hin as (ep & <- & Hep). simpl. auto.
  - destruct (IH _ Hin). auto.
Qed.

Lemma spec_traverse_requests fetch cands : forall skipping n,
  Forall (fun x => exists c, In c cands /\ x.1 = request_for HF_API_KEY c.1.2 c.2)
         (spec_traverse HF_API_KEY fetch cands skipping n).
Proof.
  induction cands as [|[[i model] ep] cands IH]; intros skipping n; simpl;
    [constructor|].
  assert (Hweak : forall sk k,
             Forall (fun x => exists c,
                         ((i, model, ep) = c \/ In c cands)
                         /\ x.1 = request_for HF_API_KEY c.1.2 c.2)
                    (spec_traverse HF_API_KEY fetch cands sk k)).
  { intros sk k. eapply List.Forall_impl; [|apply IH].
    intros x (c & Hc & Hx). exists c. auto. }
  destruct (match skipping with Some j => Nat.eqb i j | None => false end);
    [apply Hweak|].
  constructor.
  - exists (i, model, ep). split; [left; reflexivity | reflexivity].
  - destruct (verdict _); [constructor | apply Hweak | apply Hweak].
Qed.

(** On the wire, the first request is the chat-completion request for
    [HF_MODEL]; it carries the message list, the system prompt under the
    role [user]. *)
Lemma first_request_carries_messages fetch messages :
  no_key = false ->
  exists answer rest,
    (callHF fetch messages).2
    = (mkRequest "https://router.huggingface.co/v1/chat/completions" "POST"
         [ ("Authorization", ("Bearer " ++ api_key HF_API_KEY)%string);
           ("Content-Type", "application/json") ]
         (JObj [ ("model", JStr (HF_MODEL env_HF_MODEL));
                 ("messages", JArr (map chat_message_json messages));
                 ("max_tokens", JNum 200 0);
                 ("temperature", JNum 8 (-1)) ]),
       answer) :: rest.
Proof.
  intros H. rewrite callHuggingFace_trace by exact H.
  unfold candidate_matrix, modelsToTry, endpoints.
  cbn [candidates_from map app]. rewrite spec_traverse_step.
  eexists _, _. reflexivity.
Qed.

Lemma string_append_assoc (a b c : string) :
  ((a ++ b) ++ c = a ++ b ++ c)%string.
Proof.
  induction a as [|x a IH]; [reflexivity|].
  change (String x ((a ++ b) ++ c) = String x (a ++ b ++ c))%string.
  now rewrite IH.
Qed.

Lemma string_concat_cons sep x y (l : list string) :
  String.concat sep (x :: y :: l)
  = (x ++ sep ++ String.concat sep (y :: l))%string.
Proof. reflexivity. Qed.

Lemma prompt_lines_join m : forall messages,
  (String.concat JsString.LF
     (map (fun m => roleLabels (role m) ++ ": " ++ content m) (m :: messages))
   ++ JsString.LF
   = String.concat "" (map prompt_line (m :: messages)))%string.
Proof.
  intros messages. revert m.
  induction messages as [|m' messages IH]; intros m.
  - cbn [String.concat map]. unfold prompt_line.
    now rewrite !string_append_assoc.
  - specialize (IH m'). rewrite !(map_cons _ m) in *.
    rewrite !(map_cons _ m') in *. rewrite !string_concat_cons.
    rewrite (string_append_assoc _ _ JsString.LF).
    rewrite (string_append_assoc JsString.LF _ JsString.LF).
    rewrite IH.
    change (prompt_line m)
      with (roleLabels (role m) ++ ": " ++ content m ++ JsString.LF)%string.
    rewrite !string_append_assoc. reflexivity.
Qed.


(** ** Extraction of the generated text *)

Lemma textual_cases o :
  textual o = true ->
  (Js.truthy_opt o = true /\ exists s, o = Some (JStr s) /\ non_empty_text o = Some s)
  \/ (Js.truthy_opt o = false /\ non_empty_text o = None).
Proof.
  destruct o as [[|b|m e|s|items|fields]|]; simpl; intros H;
    try (right; split;
         [first [reflexivity | now apply negb_true_iff in H] | reflexivity]);
    try discriminate.
  destruct (JsString.nonempty s) eqn:Hs.
  - left. split; [reflexivity|]. exists s. split; reflexivity.
  - right. split; reflexivity.
Qed.

Lemma opt_get_falsy o k : Js.truthy_opt o = false -> Js.opt_get o k = None.
Proof.
  destruct o as [[|b|m e|s|items|fields]|]; simpl; try reflexivity; discriminate.
Qed.

Lemma extract_choice_textual choice :
  choice <> JNull ->
  textual (Js.opt_get (Js.opt_get (Some choice) "message") "content") = true ->
  textual (Js.opt_get (Some choice) "text") = true ->
  extract_choice choice
  = Ok (JStr <$>
          first_some
            [ non_empty_text (Js.opt_get (Js.opt_get (Some choice) "message") "content");
              non_empty_text (Js.opt_get (Some choice) "text") ]).
Proof.
  intros Hnull Hc Ht.
  assert (Hget : forall k, Js.opt_get (Some choice) k = Js.get choice k)
    by (intros k; destruct choice; try reflexivity; contradiction).
  rewrite !Hget in *.
  unfold extract_choice, Js.member.
  destruct choice as [|b|m e|s|items|fields]; try contradiction; cbn [bind];
    (destruct (Js.truthy_opt (Js.get _ "message")) eqn:Hm;
     [|rewrite (opt_get_falsy _ "content" Hm) in *]; cbn [andb first_some non_empty_text];
     [ destruct (textual_cases _ Hc) as [(-> & s' & -> & ->)|(-> & ->)]
     | ];
     cbn [first_some fmap option_fmap option_map]; try reflexivity;
     destruct (textual_cases _ Ht) as [(-> & s' & -> & ->)|(-> & ->)];
     reflexivity).
Qed.

Lemma legacy_fields_textual a b c :
  textual a = true -> textual b = true -> textual c = true ->
  (if Js.truthy_opt a then Ok a
   else if Js.truthy_opt b then Ok b
   else if Js.truthy_opt c then Ok c
   else Ok None)
  = Ok (JStr <$> first_some [non_empty_text a; non_empty_text b; non_empty_text c]).
Proof.
  intros Ha Hb Hc.
  destruct (textual_cases _ Ha) as [(-> & s & -> & ->)|(-> & ->)]; [reflexivity|].
  destruct (textual_cases _ Hb) as [(-> & s & -> & ->)|(-> & ->)]; [reflexivity|].
  destruct (textual_cases _ Hc) as [(-> & s & -> & ->)|(-> & ->)]; reflexivity.
Qed.

Lemma extract_object_textual fields :
  textual_body (JObj fields) = true ->
  extract_object (JObj fields)
  = Ok (JStr <$> first_some (object_shapes (JObj fields))).
Proof.
  unfold textual_body. rewrite !andb_true_iff.
  intros [[[Hchoice Hg] Ho] Ht].
  pose proof (legacy_fields_textual _ _ _ Hg Ho Ht) as Hlegacy.
  unfold extract_object, object_shapes.
  destruct (first_choice (JObj fields)) as [choice|] eqn:Hfirst.
  - assert (Hchoices : exists others,
               Js.get (JObj fields) "choices" = Some (JArr (choice :: others))).
    { unfold first_choice in Hfirst.
      destruct (Js.get (JObj fields) "choices") as [[| | | |[|c others]|]|];
        try discriminate.
      injection Hfirst as ->. eauto. }
    destruct Hchoices as [others ->].
    assert (Hnull : choice <> JNull) by (intros ->; discriminate).
    assert (Hc : textual (Js.opt_get (Js.opt_get (Some choice) "message") "content")
                 = true
                 /\ textual (Js.opt_get (Some choice) "text") = true).
    { destruct choice; try contradiction; now apply andb_true_iff in Hchoice. }
    destruct Hc as [Hc Hx].
    rewrite (extract_choice_textual choice Hnull Hc Hx). cbn [bind first_some].
    destruct (non_empty_text (Js.opt_get (Js.opt_get (Some choice) "message") "content"));
      [reflexivity|].
    destruct (non_empty_text (Js.opt_get (Some choice) "text")); [reflexivity|].
    exact Hlegacy.
  - assert (Hchosen :
               match Js.get (JObj fields) "choices" with
               | Some (JArr (choice :: _)) => extract_choice choice
               | _ => Ok None
               end = Ok None).
    { unfold first_choice in Hfirst.
      destruct (Js.get (JObj fields) "choices") as [[| | | |[|c others]|]|];
        try reflexivity. discriminate. }
    rewrite Hchosen. exact Hlegacy.
Qed.

Lemma extract_array_by_shape items :
  extract_array items = JStr <$> extract_by_shape (JArr items).
Proof.
  destruct items as [|[|b|m e|s|nested|fields] rest]; try reflexivity.
  - simpl. destruct b; reflexivity.
  - simpl. destruct (Z.eqb m 0); reflexivity.
  - simpl. destruct (JsString.nonempty s); reflexivity.
  - cbn [extract_array Js.truthy negb extract_by_shape Js.get map first_some].
    destruct (Js.assoc "generated_text" fields) as [[]|]; try reflexivity;
    destruct (Js.assoc "output_text" fields) as [[]|]; try reflexivity;
    destruct (Js.assoc "text" fields) as [[]|]; try reflexivity;
    destruct (Js.assoc "content" fields) as [[]|]; reflexivity.
Qed.

(** C9, as the service has it. On a body whose text fields hold strings
    (or nothing that counts) and whose first choice is not [null],
    [extractGeneratedText] checks the shapes in order: the first choice of
    a chat completion ([message.content], then [text]), the legacy fields
    [generated_text], [output_text], [text] of a single object, each taken
    when it is a non-empty string; the first element of an array, taken
    when it is a non-empty string, or, when it is an object, read through
    the first of [generated_text], [output_text], [text], [content] that
    is present, which is returned if it is a string, even an empty one; a
    bare non-empty string; and it returns [null] when nothing matches.
    When the traversal ends on a 2xx answer whose body is [{}], the
    result is a failure of type [api_error] saying that the response is
    empty. *)
Theorem extraction_checks_shapes_in_order :
  (forall data,
      textual_body data = true ->
      extractGeneratedText data = Ok (JStr <$> extract_by_shape data))
  /\ (forall fetch messages req r,
        no_api_key HF_API_KEY = false ->
        let out := callHuggingFace HF_API_KEY env_HF_MODEL fetch messages in
        last out.2 = Some (req, Resolved r) ->
        ok r = true ->
        body_json r = Some (JObj []) ->
        out.1 = failure_result (JStr Messages.empty_response) api_error).
Proof.
  split.
  - intros data Htext. unfold extractGeneratedText.
    destruct data as [|b|m e|s|items|fields].
    + reflexivity.
    + destruct b; reflexivity.
    + simpl. destruct (Z.eqb m 0); reflexivity.
    + simpl. destruct (JsString.nonempty s); reflexivity.
    + cbn [Js.truthy negb Js.is_object]. rewrite <- extract_array_by_shape.
      reflexivity.
    + cbn [Js.truthy negb Js.is_object].
      rewrite (extract_object_textual fields Htext). cbn [bind extract_by_shape].
      destruct (first_some (object_shapes (JObj fields))); reflexivity.
  - intros fetch messages req r H out Hlast Hok Hbody. subst out.
    rewrite (callHuggingFace_on_success fetch messages req r H Hlast Hok).
    unfold read_generated_text. rewrite Hbody. reflexivity.
Qed.

(** ** The service is disabled without a credential *)

(** C1. Without a credential ([HF_API_KEY] unset or empty),
    [getAIResponse] returns [null] for every user and message, issues no
    request, and leaves the whole conversation store as it was. *)
Theorem getAIResponse_without_key fetch store userId userMessage :
  no_api_key HF_API_KEY = true ->
  getAIResponse HF_API_KEY env_HF_MODEL getSystemPrompt fetch
                store userId userMessage
  = (None, store, []).
Proof. intros H. unfold getAIResponse. now rewrite H. Qed.

(** ** Error categories *)

(** C10. Whatever the input and whatever the provider answers, a result of
    [getAIResponse] never carries the category [insufficient_balance]. *)
Theorem getAIResponse_never_insufficient_balance fetch store userId userMessage :
  let out :=
    getAIResponse HF_API_KEY env_HF_MODEL getSystemPrompt fetch
                  store userId userMessage in
  forall result,
    out.1.1 = Some result -> errorType result <> Some insufficient_balance.
Proof.
  intros out result. subst out. destruct no_key eqn:Hk.
  - rewrite getAIResponse_without_key by exact Hk. discriminate.
  - destruct (getAIResponse_calls fetch store userId userMessage Hk) as [-> _].
    intros [= <-]. apply callHuggingFace_errorType.
Qed.

(** ** The history changes only with an answer *)

(** C3, as the service has it. A call that returns [null] or a result with
    [success: false] leaves the store as it was; a call that returns
    [success: true] with a non-empty message appends the user turn and the
    assistant turn to that user's history, which then keeps its last
    [MAX_HISTORY] turns. *)
Theorem history_changes_only_with_answer fetch store userId userMessage :
  let out :=
    getAIResponse HF_API_KEY env_HF_MODEL getSystemPrompt fetch
                  store userId userMessage in
  (out.1.1 = None -> out.1.2 = store)
  /\ (forall result,
        out.1.1 = Some result -> success result = false -> out.1.2 = store)
  /\ (forall result reply,
        out.1.1 = Some result -> success result = true ->
        message result = Some reply -> JsString.nonempty reply = true ->
        out.1.2
        = <[userId :=
              slice_last MAX_HISTORY
                (default [] (store !! userId)
                   ++ [mkTurn turn_user userMessage; mkTurn turn_assistant reply])]>
            store).
Proof.
  intros out. subst out.
  rewrite (getAIResponse_store fetch store userId userMessage).
  destruct (getAI fetch store userId userMessage).1.1 as [[ok_ msg err ty]|].
  - split; [discriminate|]. split.
    + intros result [= <-]. simpl. now intros ->.
    + intros result reply [= <-]. simpl. intros -> -> ->. reflexivity.
  - split; [reflexivity|]. split; intros; discriminate.
Qed.

(** Clearing the history of a user who has none changes nothing. *)
Lemma clearUserHistory_unknown (store : gmap Z (list Turn)) userId :
  store !! userId = None -> clearUserHistory store userId = store.
Proof. apply delete_id. Qed.

Lemma clearUserHistory_forgets (store : gmap Z (list Turn)) userId :
  clearUserHistory store userId !! userId = None.
Proof. apply lookup_delete_eq. Qed.

(** ** The history is a sliding window *)

Lemma slice_last_length {A : Type} (n : nat) (l : list A) :
  length (slice_last n l) <= n.
Proof. unfold slice_last. rewrite length_drop. lia. Qed.

Lemma slice_last_app {A : Type} (n : nat) (l p : list A) :
  slice_last n (slice_last n l ++ p) = slice_last n (l ++ p).
Proof.
  destruct (Nat.le_gt_cases (length l) n) as [Hle|Hgt].
  - now rewrite (slice_last_short n l Hle).
  - unfold slice_last. rewrite !length_app, length_drop.
    replace (length l - (length l - n) + length p - n) with (length p) by lia.
    replace (length l + length p - n) with ((length l - n) + length p) by lia.
    rewrite <- drop_drop. f_equal.
    rewrite drop_app_le by lia. reflexivity.
Qed.

Lemma run_window calls : forall store userId,
  length (default [] (store !! userId)) <= MAX_HISTORY ->
  default [] (run HF_API_KEY env_HF_MODEL getSystemPrompt calls store !! userId)
  = slice_last MAX_HISTORY
      (default [] (store !! userId)
         ++ exchanges HF_API_KEY env_HF_MODEL getSystemPrompt calls store userId).
Proof.
  induction calls as [|c calls IH]; intros store userId Hlen; simpl.
  - rewrite app_nil_r. symmetry. now apply slice_last_short.
  - pose proof (getAIResponse_store (inv_network c) store (inv_user c) (inv_message c))
      as Hstore.
    destruct (getAI (inv_network c) store (inv_user c) (inv_message c))
      as [[result store'] trace].
    simpl in Hstore. subst store'.
    destruct result as [[[|] [reply|] err ty]|]; simpl; try (now apply IH).
    destruct (JsString.nonempty reply) eqn:Hreply;
      [|rewrite andb_false_r; now apply IH].
    rewrite andb_true_r.
    destruct (Z.eqb_spec (inv_user c) userId) as [->|Hne].
    + rewrite IH; rewrite lookup_insert_eq; simpl.
      * rewrite slice_last_app, <- app_assoc. reflexivity.
      * apply slice_last_length.
    + rewrite IH; rewrite lookup_insert_ne by exact Hne; [reflexivity | exact Hlen].
Qed.

(** C2. After any sequence of [getAIResponse] calls on the initially empty
    store, the history kept for a user has at most [MAX_HISTORY] turns and
    is exactly the most recent turns of that user's answered exchanges, in
    the order in which they were appended: the older turns are the ones
    evicted. *)
Theorem history_is_sliding_window calls userId :
  let history :=
    default [] (run HF_API_KEY env_HF_MODEL getSystemPrompt calls ∅ !! userId) in
  let appended := exchanges HF_API_KEY env_HF_MODEL getSystemPrompt calls ∅ userId in
  length history <= MAX_HISTORY
  /\ history = slice_last MAX_HISTORY appended
  /\ exists evicted, appended = evicted ++ history.
Proof.
  intros history appended.
  assert (H : history = slice_last MAX_HISTORY appended).
  { subst history appended. rewrite run_window; rewrite lookup_empty; simpl;
      [reflexivity | lia]. }
  split; [rewrite H; apply slice_last_length|]. split; [exact H|].
  exists (take (length appended - MAX_HISTORY) appended).
  rewrite H. unfold slice_last. symmetry. apply take_drop.
Qed.

End Properties.

(** * The properties on concrete providers *)

Local Open Scope string_scope.

(** The call used below: user 7, without history, says "hello". *)
Local Abbreviation hello net :=
  (getAIResponse Examples.key None Examples.prompt net ∅ 7%Z "hello").

Local Abbreviation hello_messages :=
  ([mkMessage system Examples.prompt; mkMessage user "hello"]).

Local Abbreviation hello_call net :=
  (callHuggingFace Examples.key None net hello_messages).

(** Without [HF_API_KEY], and with an empty one, on a network that would
    answer. *)
Lemma getAIResponse_without_key_witness :
  getAIResponse None None Examples.prompt Examples.net_third_succeeds ∅ 7%Z "hello"
  = (None, ∅, [])
  /\ getAIResponse (Some "") None Examples.prompt Examples.net_third_succeeds
                   ∅ 7%Z "hello"
     = (None, ∅, []).
Proof. split; apply getAIResponse_without_key; reflexivity. Defined.

(** After six answered exchanges of user 7 the history holds the last five
    of them: the turns of "m1" were evicted. *)
Lemma history_is_sliding_window_witness :
  let calls :=
    map (fun c => mkInvocation c.1.1 c.1.2 c.2) Examples.six_exchanges in
  default [] (run Examples.key None Examples.prompt calls ∅ !! 7%Z)
  = [ mkTurn turn_user "m2"; mkTurn turn_assistant "Hello";
      mkTurn turn_user "m3"; mkTurn turn_assistant "Hello";
      mkTurn turn_user "m4"; mkTurn turn_assistant "Hello";
      mkTurn turn_user "m5"; mkTurn turn_assistant "Hello";
      mkTurn turn_user "m6"; mkTurn turn_assistant "Hello" ].
Proof.
  intros calls.
  destruct (history_is_sliding_window Examples.key None Examples.prompt calls 7%Z)
    as (_ & Hwindow & _).
  rewrite Hwindow. vm_compute. reflexivity.
Defined.

(** The failure reported when the network is down. *)
Lemma getAIResponse_never_insufficient_balance_witness :
  errorType (failure_result (JStr "socket hang up") api_error)
  <> Some insufficient_balance.
Proof.
  apply (getAIResponse_never_insufficient_balance
           Examples.key None Examples.prompt Examples.net_down ∅ 7%Z "hello").
  vm_compute. reflexivity.
Defined.

(** C3, the claim as worded fails: a provider that answers with blank text
    gets a result with [success: true], and nothing is appended to the
    history of the user. *)
Lemma blank_answer_is_not_recorded :
  let out :=
    getAIResponse Examples.key None Examples.prompt Examples.net_blank
                  ∅ 7%Z "hello" in
  out.1.1 = Some (success_result "")
  /\ out.1.2 !! 7%Z = None.
Proof. split; vm_compute; reflexivity. Qed.

(** A disabled call, a failed call and an answered call. *)
Lemma history_changes_only_with_answer_witness :
  (getAIResponse None None Examples.prompt Examples.net_down ∅ 7%Z "hello").1.2 = ∅
  /\ (hello Examples.net_down).1.2 = ∅
  /\ (hello Examples.net_third_succeeds).1.2
     = <[7%Z := slice_last MAX_HISTORY
                  (default [] ((∅ : gmap Z (list Turn)) !! 7%Z)
                     ++ [mkTurn turn_user "hello"; mkTurn turn_assistant "Hi there"])%list]> ∅.
Proof.
  split; [|split].
  - pose proof (history_changes_only_with_answer
                  None None Examples.prompt Examples.net_down ∅ 7%Z "hello") as H.
    cbv zeta in H. destruct H as (H & _ & _). apply H. reflexivity.
  - pose proof (history_changes_only_with_answer
                  Examples.key None Examples.prompt Examples.net_down ∅ 7%Z "hello") as H.
    cbv zeta in H. destruct H as (_ & H & _).
    eapply H; [vm_compute; reflexivity | reflexivity].
  - pose proof (history_changes_only_with_answer
                  Examples.key None Examples.prompt Examples.net_third_succeeds
                  ∅ 7%Z "hello") as H.
    cbv zeta in H. destruct H as (_ & _ & H).
    eapply H; [vm_compute; reflexivity | reflexivity | reflexivity | reflexivity].
Defined.

(** C4. The answer [{"generated_text":"  "}] with status 200 passes the
    emptiness check of [callHuggingFace] and is trimmed afterwards:
    [getAIResponse] returns [success: true] with the empty message. *)
Theorem blank_text_gives_empty_success :
  let out :=
    getAIResponse Examples.key None Examples.prompt Examples.net_blank
                  ∅ 7%Z "hello" in
  out.1.1
  = Some {| success := true; message := Some ""; error := None; errorType := None |}
  /\ length out.2 = 1.
Proof. split; vm_compute; reflexivity. Qed.



Lemma chat_body_is_chat_completion :
  chat_completion Examples.chat_body "Hi there".
Proof.
  exists [("message", JObj [("role", JStr "assistant"); ("content", JStr "Hi there")])],
         [],
         [("role", JStr "assistant"); ("content", JStr "Hi there")].
  repeat split.
Defined.

(** 503, 404, then 200: three requests, and the text of the third. *)
Lemma first_success_ends_traversal_witness :
  length (hello_call Examples.net_third_succeeds).2 = 3
  /\ (hello_call Examples.net_third_succeeds).1 = success_result "Hi there".
Proof.
  destruct (first_success_ends_traversal
              Examples.key None Examples.net_third_succeeds hello_messages eq_refl)
    as [Hlast Hthird].
  split.
  - eapply (Hlast 2); [vm_compute; reflexivity | reflexivity].
  - destruct (Hthird Examples.warming Examples.missing Examples.completed
                     Examples.chat_body "Hi there"
                     (fun _ => eq_refl) eq_refl (fun _ => eq_refl) eq_refl
                     (fun _ => eq_refl) eq_refl eq_refl chat_body_is_chat_completion)
      as [Hres _].
    exact Hres.
Defined.

(** C7. In the default configuration [HF_MODEL] is not set and the list
    of models names the default model twice.  The first request is answered
    400 with the code [model_not_supported] and every later request 404:
    the plain [break] of the inner loop moves to the second entry of the
    list, so the model just reported as not supported is sent the same
    chat-completion request again, then its two other endpoint formats, and
    the next model is reached with the fifth request only. *)
Theorem unsupported_default_model_is_requested_again :
  let out :=
    callHuggingFace Examples.key None Scenarios.net_unsupported_then_missing
                    [mkMessage system Examples.prompt; mkMessage user "hello"] in
  map (fun x => (url x.1, Js.get (body x.1) "model", x.2)) (take 5 out.2)
  = [ ("https://router.huggingface.co/v1/chat/completions",
       Some (JStr "meta-llama/Meta-Llama-3-8B-Instruct"),
       Resolved Scenarios.unsupported);
      ("https://router.huggingface.co/v1/chat/completions",
       Some (JStr "meta-llama/Meta-Llama-3-8B-Instruct"),
       Resolved Examples.missing);
      ("https://router.huggingface.co/hf-inference",
       Some (JStr "meta-llama/Meta-Llama-3-8B-Instruct"),
       Resolved Examples.missing);
      ("https://router.huggingface.co/models/meta-llama/Meta-Llama-3-8B-Instruct",
       None,
       Resolved Examples.missing);
      ("https://router.huggingface.co/v1/chat/completions",
       Some (JStr "mistralai/Mistral-7B-Instruct-v0.2"),
       Resolved Examples.missing) ]%list
  /\ length out.2 = 16.
Proof. split; vm_compute; reflexivity. Qed.

(** When the message of the "model not supported" answer has no string,
    the log statement before the [break] throws, the [catch] of the block
    swallows the exception, and the next endpoint of the same model is
    requested. *)
Lemma unprintable_message_does_not_skip :
  map (fun x => (url x.1, Js.get (body x.1) "model"))
      (take 2 (hello_call Scenarios.net_unprintable_first).2)
  = [ ("https://router.huggingface.co/v1/chat/completions",
       Some (JStr "meta-llama/Meta-Llama-3-8B-Instruct"));
      ("https://router.huggingface.co/hf-inference",
       Some (JStr "meta-llama/Meta-Llama-3-8B-Instruct")) ]%list.
Proof. vm_compute. reflexivity. Qed.

(** C8, the claim as worded fails: when every request fails below HTTP
    there is no response to classify, and the message of the result is that
    of the exception, not one drawn from a response body and not a generic
    string. *)
Lemma network_failure_is_not_classified_as_specified :
  let out :=
    callHuggingFace Examples.key None Examples.net_down
      [mkMessage system Examples.prompt; mkMessage user "hello"] in
  no_success out.2
  /\ out.1 = failure_result (JStr "socket hang up") api_error
  /\ ~ exhausted_as_specified out.2 out.1.
Proof.
  intros out.
  assert (Hres : out.1 = failure_result (JStr "socket hang up") api_error)
    by (vm_compute; reflexivity).
  assert (Hnone : last_response out.2 = None) by (vm_compute; reflexivity).
  split; [|split; [exact Hres|]].
  - vm_compute. repeat constructor.
  - unfold exhausted_as_specified. rewrite Hnone, Hres.
    intros (v & [(code & reason & ->)| ->] & Heq); discriminate Heq.
Qed.

(** A provider that answers 500 with an [error] field, and a network that
    is down. *)
Lemma exhausted_traversal_is_classified_witness :
  exhausted_as_classified (hello_call Examples.net_overloaded).2
                          (hello_call Examples.net_overloaded).1
  /\ exhausted_as_classified (hello_call Examples.net_down).2
                             (hello_call Examples.net_down).1.
Proof.
  split; apply exhausted_traversal_is_classified;
    try reflexivity; vm_compute; repeat constructor.
Defined.

(** C9, the claim as worded fails: for the body
    [[{"generated_text":"","output_text":"hi"}]] the extraction returns the
    empty string, although [output_text] holds a non-empty one. *)
Lemma empty_field_hides_later_text :
  extractGeneratedText Examples.array_body = Ok (Some (JStr ""))
  /\ extract_as_specified Examples.array_body = Some "hi"
  /\ extractGeneratedText Examples.array_body
     <> Ok (JStr <$> extract_as_specified Examples.array_body).
Proof. repeat split. vm_compute. discriminate. Qed.

(** A chat completion, an array of raw objects, and the body [{}]. *)
Lemma extraction_checks_shapes_in_order_witness :
  extractGeneratedText Examples.chat_body = Ok (Some (JStr "Hi there"))
  /\ extractGeneratedText Examples.array_body = Ok (Some (JStr ""))
  /\ (hello_call Examples.net_empty_object).1
     = failure_result (JStr Messages.empty_response) api_error.
Proof.
  destruct (extraction_checks_shapes_in_order Examples.key None) as [Hshape Hempty].
  split; [|split].
  - apply (Hshape Examples.chat_body). reflexivity.
  - apply (Hshape Examples.array_body). reflexivity.
  - eapply (Hempty Examples.net_empty_object hello_messages);
      [reflexivity | vm_compute; reflexivity | reflexivity | reflexivity].
Defined.

(** * Further properties of the service and of the bot *)

Local Close Scope string_scope.

Section Coverage.

Variable HF_API_KEY : option string.
Variable env_HF_MODEL : option string.
Variable getSystemPrompt : string.

Local Abbreviation no_key := (no_api_key HF_API_KEY).
Local Abbreviation callHF := (callHuggingFace HF_API_KEY env_HF_MODEL).
Local Abbreviation getAI :=
  (getAIResponse HF_API_KEY env_HF_MODEL getSystemPrompt).
Local Abbreviation final_loop fetch messages :=
  (model_loop HF_API_KEY fetch (endpoints messages (buildPrompt messages))
              (modelsToTry env_HF_MODEL) initial_loop).

(** ** The store *)

(** X1. A call of [getAIResponse] for one user leaves the history of
    every other user as it was, whatever the provider answers. *)
Theorem other_users_keep_their_history fetch store userId userMessage other :
  other <> userId ->
  (getAIResponse HF_API_KEY env_HF_MODEL getSystemPrompt fetch
                 store userId userMessage).1.2 !! other
  = store !! other.
Proof.
  intros Hne.
  rewrite (getAIResponse_store HF_API_KEY env_HF_MODEL getSystemPrompt).
  destruct (getAI fetch store userId userMessage).1.1
    as [[[|] [reply|] err ty]|]; try reflexivity.
  destruct (JsString.nonempty reply); [|reflexivity].
  apply lookup_insert_ne. congruence.
Qed.

(** ** The requests of a call *)

Lemma spec_traverse_sublist fetch cands : forall skipping n,
  sublist (map fst (spec_traverse HF_API_KEY fetch cands skipping n))
          (map (fun c => request_for HF_API_KEY c.1.2 c.2) cands).
Proof.
  induction cands as [|[[i model] ep] cands IH]; intros skipping n; simpl;
    [constructor|].
  destruct (match skipping with Some j => Nat.eqb i j | None => false end).
  - apply sublist_cons, IH.
  - simpl. apply sublist_skip.
    destruct (verdict _); [apply sublist_nil_l | apply IH | apply IH].
Qed.

(** X2. With a credential, the requests of one [callHuggingFace] call are
    taken from the candidate matrix in its order, each candidate at most
    once: there is at least one request and there are at most eighteen. *)
Theorem each_candidate_is_requested_at_most_once fetch messages :
  no_api_key HF_API_KEY = false ->
  let trace := (callHuggingFace HF_API_KEY env_HF_MODEL fetch messages).2 in
  sublist (map fst trace)
          (map (fun c => request_for HF_API_KEY c.1.2 c.2)
               (candidate_matrix env_HF_MODEL messages))
  /\ 1 <= length trace <= 18.
Proof.
  intros H trace.
  assert (Hsub : sublist (map fst trace)
                   (map (fun c => request_for HF_API_KEY c.1.2 c.2)
                        (candidate_matrix env_HF_MODEL messages))).
  { subst trace. rewrite (callHuggingFace_trace _ _ _ _ H).
    apply spec_traverse_sublist. }
  split; [exact Hsub|]. split.
  - assert (Hne : trace <> []).
    { subst trace. rewrite callHuggingFace_eq by exact H. cbn [fst snd].
      apply final_loop_inv. }
    destruct trace; [contradiction | simpl; lia].
  - apply sublist_length in Hsub. rewrite !length_map in Hsub. exact Hsub.
Qed.

(** X3. Every request of the service is a POST to the Hugging Face router
    that carries the configured credential as bearer token and announces
    a JSON body. *)
Theorem requests_go_to_the_router fetch messages :
  no_api_key HF_API_KEY = false ->
  Forall (fun x =>
            method x.1 = "POST"%string
            /\ headers x.1
               = [ ("Authorization", "Bearer " ++ api_key HF_API_KEY);
                   ("Content-Type", "application/json") ]%string
            /\ String.prefix router (url x.1) = true)
         (callHuggingFace HF_API_KEY env_HF_MODEL fetch messages).2.
Proof.
  intros H. rewrite (callHuggingFace_trace _ _ _ _ H).
  eapply List.Forall_impl; [|apply spec_traverse_requests].
  intros x (c & Hc & ->). apply candidates_from_In in Hc. destruct Hc as [_ Hep].
  split; [reflexivity|]. split; [reflexivity|].
  simpl in Hep. destruct Hep as [<-|[<-|[<-|[]]]]; reflexivity.
Qed.

(** ** The result of a call *)

Lemma final_loop_response fetch messages r :
  response (final_loop fetch messages) = Some r ->
  ok r = true ->
  exists req, last (issued (final_loop fetch messages)) = Some (req, Resolved r).
Proof.
  intros Hresp Hok.
  destruct (final_loop_inv HF_API_KEY env_HF_MODEL fetch messages)
    as ((Hlast & _) & _ & Hends).
  rewrite Hresp in Hlast. symmetry in Hlast.
  destruct Hends as [(pre & req & r' & Heq & _ & _)|Hno].
  - rewrite Heq in Hlast |- *. rewrite last_response_resolved in Hlast.
    injection Hlast as ->. exists req. apply last_snoc.
  - destruct (last_response_In _ _ Hlast) as [req Hin].
    rewrite (no_success_resolved _ _ _ Hno Hin) in Hok. discriminate.
Qed.

(** X4. [callHuggingFace] reports a success only when the last request of
    the call was answered 2xx with a body from which a non-empty text was
    extracted; the message of the result is that text, trimmed. *)
Theorem success_needs_a_2xx_text fetch messages :
  no_api_key HF_API_KEY = false ->
  let out := callHuggingFace HF_API_KEY env_HF_MODEL fetch messages in
  success out.1 = true ->
  exists req r s,
    last out.2 = Some (req, Resolved r)
    /\ ok r = true
    /\ usable_text r = Some s
    /\ out.1 = success_result (JsString.trim s).
Proof.
  intros H out. subst out. rewrite callHuggingFace_eq by exact H. cbn [fst snd].
  pose proof (final_loop_response fetch messages) as Hlast.
  unfold conclude, read_generated_text in *.
  destruct (response (final_loop fetch messages)) as [r|]; [|discriminate].
  destruct (Z.eqb (status r) 503); [discriminate|].
  destruct (ok r) eqn:Hok; [|discriminate]. cbn [negb].
  destruct (Hlast r eq_refl Hok) as [req Hreq].
  destruct (body_json r) as [data|] eqn:Hbody; [|discriminate]. cbn [bind].
  destruct (extractGeneratedText data) as [[[| | |s| |]|]|e] eqn:Hdata;
    try discriminate.
  cbn [bind].
  destruct (JsString.nonempty s) eqn:Hs; [|discriminate]. intros _.
  exists req, r, s. split; [exact Hreq|]. split; [exact Hok|].
  split; [|reflexivity].
  unfold usable_text. now rewrite Hbody, Hdata, Hs.
Qed.

(** X5. A 2xx answer that yields no usable text (a body that does not
    parse, no recognised field, an empty string, a value that is not a
    string, or an exception of the extraction) makes the call fail with
    type [api_error]; it is never reported as a success. *)
Theorem unusable_2xx_is_an_api_error fetch messages req r :
  no_api_key HF_API_KEY = false ->
  let out := callHuggingFace HF_API_KEY env_HF_MODEL fetch messages in
  last out.2 = Some (req, Resolved r) ->
  ok r = true ->
  usable_text r = None ->
  success out.1 = false /\ errorType out.1 = Some api_error.
Proof.
  intros H out Hlast Hok Hnone. subst out.
  rewrite (callHuggingFace_on_success _ _ _ _ req r H Hlast Hok).
  unfold usable_text, read_generated_text in *.
  destruct (body_json r) as [data|]; [|split; reflexivity]. cbn [bind].
  destruct (extractGeneratedText data) as [[[| | |s| |]|]|e];
    try (split; reflexivity).
  cbn [bind]. destruct (JsString.nonempty s); [discriminate | split; reflexivity].
Qed.

(** X6. A result of [getAIResponse] has type [provider_unavailable] only
    when the most recent HTTP response of the call had status 503. *)
Theorem provider_unavailable_means_503 fetch store userId userMessage result :
  let out :=
    getAIResponse HF_API_KEY env_HF_MODEL getSystemPrompt fetch
                  store userId userMessage in
  out.1.1 = Some result ->
  errorType result = Some provider_unavailable ->
  exists r, last_response out.2 = Some r /\ status r = 503%Z.
Proof.
  intros out. subst out. destruct no_key eqn:Hk.
  { unfold getAIResponse. rewrite Hk. discriminate. }
  destruct (getAIResponse_calls _ env_HF_MODEL getSystemPrompt
              fetch store userId userMessage Hk) as [Hres Htrace].
  remember ([mkMessage system getSystemPrompt]
              ++ map message_of_turn (default [] (store !! userId))
              ++ [mkMessage user userMessage]) as messages eqn:E in Hres, Htrace.
  clear E. rewrite Hres, Htrace.
  intros [= <-]. rewrite callHuggingFace_eq by exact Hk. cbn [fst snd].
  destruct (final_loop_inv HF_API_KEY env_HF_MODEL fetch messages)
    as ((Hlast & _) & _).
  rewrite <- Hlast. unfold conclude, read_generated_text.
  destruct (response _) as [r|]; [|discriminate].
  destruct (Z.eqb_spec (status r) 503) as [E|_]; [intros _; eauto|].
  destruct (negb (ok r)); [discriminate|].
  destruct (body_json r) as [data|]; [|discriminate]. cbn [bind].
  destruct (extractGeneratedText data) as [[[| | |s| |]|]|e]; try discriminate.
  cbn [bind]. destruct (negb (JsString.nonempty s)); discriminate.
Qed.

(** X7. Every result of [getAIResponse] is either a success, with a
    message and neither [error] nor [errorType], or a failure, with an
    [error] and an [errorType] and no message. *)
Theorem result_is_success_or_failure fetch store userId userMessage result :
  let out :=
    getAIResponse HF_API_KEY env_HF_MODEL getSystemPrompt fetch
                  store userId userMessage in
  out.1.1 = Some result ->
  (exists reply, result = success_result reply)
  \/ (exists e t, result = failure_result e t).
Proof.
  intros out. subst out. destruct no_key eqn:Hk.
  { unfold getAIResponse. rewrite Hk. discriminate. }
  destruct (getAIResponse_calls _ env_HF_MODEL getSystemPrompt
              fetch store userId userMessage Hk) as [-> _].
  intros [= <-]. rewrite callHuggingFace_eq by exact Hk. cbn [fst].
  unfold conclude, read_generated_text.
  destruct (response _) as [r|]; [|right; simpl; eauto].
  destruct (Z.eqb (status r) 503); [right; simpl; eauto|].
  destruct (negb (ok r)); [right; simpl; eauto|].
  destruct (body_json r) as [data|]; [|right; simpl; eauto]. cbn [bind].
  destruct (extractGeneratedText data) as [[[| | |s| |]|]|e];
    try (right; simpl; eauto; fail).
  cbn [bind]. destruct (negb (JsString.nonempty s)); simpl; eauto.
Qed.

(** ** The extraction *)

Lemma extract_choice_returns choice :
  choice <> JNull -> exists v, extract_choice choice = Ok v.
Proof.
  intros Hnull. unfold extract_choice, Js.member.
  destruct choice; try contradiction; cbn [bind];
    repeat match goal with |- context [if ?b then _ else _] => destruct b end;
    eauto.
Qed.

Lemma extract_object_throws obj :
  (exists e, extract_object obj = Throw e) <-> first_choice obj = Some JNull.
Proof.
  assert (Hlegacy : forall chosen : option json,
             exists v,
               match chosen with
               | Some v => Ok (Some v)
               | None =>
                   if Js.truthy_opt (Js.get obj "generated_text")
                   then Ok (Js.get obj "generated_text")
                   else if Js.truthy_opt (Js.get obj "output_text")
                        then Ok (Js.get obj "output_text")
                        else if Js.truthy_opt (Js.get obj "text")
                             then Ok (Js.get obj "text")
                             else Ok None
               end = Ok v).
  { intros [v|]; [eauto|].
    repeat match goal with |- context [if ?b then _ else _] => destruct b end;
      eauto. }
  assert (Hnone : (exists e : JsError,
                      (let* chosen := Ok None in
                       match chosen with
                       | Some v => Ok (Some v)
                       | None =>
                           if Js.truthy_opt (Js.get obj "generated_text")
                           then Ok (Js.get obj "generated_text")
                           else if Js.truthy_opt (Js.get obj "output_text")
                                then Ok (Js.get obj "output_text")
                                else if Js.truthy_opt (Js.get obj "text")
                                     then Ok (Js.get obj "text")
                                     else Ok None
                       end) = Throw e)
                  <-> None = Some JNull).
  { cbn [bind]. destruct (Hlegacy None) as [v ->].
    split; [intros [e He] | intros He]; discriminate. }
  unfold extract_object, first_choice.
  destruct (Js.get obj "choices") as [[| | | |[|choice others]|]|];
    try exact Hnone.
  destruct choice as [|b|m e|s|items|inner].
  { split; [reflexivity | intros _; simpl; eauto]. }
  all: split; [|intros He; discriminate].
  all: intros [err He]; exfalso.
  all: match type of He with
       | context [extract_choice ?c] =>
           destruct (extract_choice_returns c ltac:(discriminate)) as [v Hv];
           rewrite Hv in He
       end.
  all: cbn [bind] in He.
  all: destruct (Hlegacy v) as [w Hw]; rewrite Hw in He; discriminate.
Qed.

(** X8. [extractGeneratedText] throws exactly on an object whose [choices]
    array starts with [null]; on every other body it returns. *)
Theorem extraction_throws_only_on_null_choice data :
  (exists e, extractGeneratedText data = Throw e) <-> first_choice data = Some JNull.
Proof.
  assert (Hobject : forall items_or_fields,
             Js.is_object items_or_fields = true ->
             (exists e, (let* found := extract_object items_or_fields in
                         match found with
                         | Some v => Ok (Some v)
                         | None =>
                             match items_or_fields with
                             | JArr items => Ok (extract_array items)
                             | JStr _ => Ok (Some items_or_fields)
                             | _ => Ok None
                             end
                         end) = Throw e)
             <-> first_choice items_or_fields = Some JNull).
  { intros obj _. rewrite <- extract_object_throws.
    destruct (extract_object obj) as [[v|]|e]; cbn [bind].
    - split; intros [e He]; discriminate.
    - split; intros [e He]; [destruct obj|]; discriminate.
    - split; intros _; eauto. }
  unfold extractGeneratedText.
  destruct data as [|b|m e|s|items|fields];
    cbn [Js.truthy Js.is_object negb];
    try (apply Hobject; reflexivity);
    unfold first_choice; cbn [Js.get];
    repeat match goal with |- context [if ?b then _ else _] => destruct b end;
    cbn [bind];
    split; (intros [err He] || intros He); discriminate.
Qed.

(** ** The prompt and the chat messages *)

(** X9. For a non-empty message list, the prompt of [buildPrompt] is one
    line per message, in order, each of the form "Label: content" and
    ended by a line feed, followed by the cue "Assistant:". *)
Theorem buildPrompt_is_one_line_per_message messages :
  messages <> [] ->
  buildPrompt messages
  = (String.concat "" (map prompt_line messages) ++ "Assistant:")%string.
Proof.
  destruct messages as [|m messages]; [contradiction|]. intros _.
  unfold buildPrompt. rewrite <- prompt_lines_join.
  now rewrite !string_append_assoc.
Qed.

Lemma getAIResponse_first_request fetch store userId userMessage :
  no_key = false ->
  exists req answer rest,
    (getAI fetch store userId userMessage).2 = (req, answer) :: rest
    /\ Js.get (body req) "messages"
       = Some (JArr (map chat_message_json
                         ([mkMessage system getSystemPrompt]
                            ++ map message_of_turn (default [] (store !! userId))
                            ++ [mkMessage user userMessage]))).
Proof.
  intros Hk.
  destruct (getAIResponse_calls _ env_HF_MODEL getSystemPrompt
              fetch store userId userMessage Hk) as [_ ->].
  destruct (first_request_carries_messages HF_API_KEY env_HF_MODEL fetch
              ([mkMessage system getSystemPrompt]
                 ++ map message_of_turn (default [] (store !! userId))
                 ++ [mkMessage user userMessage]) Hk) as (answer & rest & ->).
  eexists _, answer, rest. split; reflexivity.
Qed.

(** X10. The first request of a [getAIResponse] call is the
    chat-completion request, and its [messages] array is: the system
    prompt under the role "user", then the stored turns with their own
    roles, then the new message under the role "user".  No message is sent
    under the role "system". *)
Theorem chat_request_sends_the_prompt_as_user fetch store userId userMessage :
  no_api_key HF_API_KEY = false ->
  exists req answer rest,
    (getAIResponse HF_API_KEY env_HF_MODEL getSystemPrompt fetch
                   store userId userMessage).2
    = (req, answer) :: rest
    /\ Js.get (body req) "messages"
       = Some (JArr
                 (wire_message "user" getSystemPrompt
                    :: map (fun t =>
                              wire_message
                                (match turn_role t with
                                 | turn_user => "user"
                                 | turn_assistant => "assistant"
                                 end)
                                (turn_content t))
                           (default [] (store !! userId))
                    ++ [wire_message "user" userMessage])).
Proof.
  intros Hk.
  destruct (getAIResponse_first_request fetch store userId userMessage Hk)
    as (req & answer & rest & Htrace & Hbody).
  exists req, answer, rest. split; [exact Htrace|]. rewrite Hbody.
  do 2 f_equal. rewrite map_app. cbn [app map]. f_equal.
  rewrite map_app, map_map. cbn [map]. f_equal.
  apply map_ext. intros [[|] c]; reflexivity.
Qed.

(** ** What every stored history looks like *)

Lemma getAIResponse_reply_is_clean fetch store userId userMessage ok_ reply err ty :
  (getAI fetch store userId userMessage).1.1
  = Some (mkResult ok_ (Some reply) err ty) ->
  ok_ = true ->
  JsString.nonempty reply = true ->
  clean_text reply.
Proof.
  intros Hres -> Hreply. destruct no_key eqn:Hk.
  { unfold getAIResponse in Hres. rewrite Hk in Hres. discriminate. }
  destruct (getAIResponse_calls _ env_HF_MODEL getSystemPrompt
              fetch store userId userMessage Hk) as [Hcall _].
  remember ([mkMessage system getSystemPrompt]
              ++ map message_of_turn (default [] (store !! userId))
              ++ [mkMessage user userMessage]) as messages eqn:E in Hcall.
  clear E. rewrite Hcall in Hres. injection Hres as Hres.
  split; [exact Hreply|].
  apply (success_message_is_trimmed HF_API_KEY env_HF_MODEL fetch messages);
    now rewrite Hres.
Qed.

(** A property of histories that holds of the empty history and is kept
    when an exchange with a clean answer is appended and the window cut
    holds of every history after any run that starts from such histories. *)
Lemma run_invariant (P : list Turn -> Prop) :
  (forall h userMessage reply,
      P h -> clean_text reply ->
      P (slice_last MAX_HISTORY
           (h ++ [mkTurn turn_user userMessage; mkTurn turn_assistant reply]))) ->
  forall calls store,
    (forall userId, P (default [] (store !! userId))) ->
    forall userId,
      P (default []
           (run HF_API_KEY env_HF_MODEL getSystemPrompt calls store !! userId)).
Proof.
  intros Hstep. induction calls as [|c calls IH]; intros store Hstore userId;
    [apply Hstore|].
  cbn [run]. apply IH. clear userId. intros userId.
  rewrite (getAIResponse_store HF_API_KEY env_HF_MODEL getSystemPrompt).
  destruct (getAI (inv_network c) store (inv_user c) (inv_message c)).1.1
    as [[[|] [reply|] err ty]|] eqn:Hres; try apply Hstore.
  destruct (JsString.nonempty reply) eqn:Hreply; [|apply Hstore].
  destruct (Z.eq_dec (inv_user c) userId) as [->|Hne].
  - rewrite lookup_insert_eq. cbn [default]. apply Hstep; [apply Hstore|].
    eapply getAIResponse_reply_is_clean; eauto.
  - rewrite lookup_insert_ne by exact Hne. apply Hstore.
Qed.

Lemma is_exchanges_drop : forall k h,
  is_exchanges h = true -> is_exchanges (drop (2 * k) h) = true.
Proof.
  induction k as [|k IH]; intros h Hh; [exact Hh|].
  replace (2 * S k) with (2 + 2 * k) by lia. rewrite <- drop_drop.
  apply IH. destruct h as [|u [|a h]]; [exact Hh | discriminate |].
  cbn [is_exchanges] in Hh. cbn [drop].
  destruct (turn_role u), (turn_role a); try discriminate. exact Hh.
Qed.

Lemma is_exchanges_even : forall n h,
  length h <= n -> is_exchanges h = true -> exists k, length h = 2 * k.
Proof.
  induction n as [|n IH]; intros h Hlen Hh.
  - destruct h; [exists 0; reflexivity | simpl in Hlen; lia].
  - destruct h as [|u [|a h]]; [exists 0; reflexivity | discriminate |].
    cbn [is_exchanges] in Hh.
    destruct (turn_role u), (turn_role a); try discriminate.
    destruct (IH h) as [k Hk]; [simpl in Hlen; lia | exact Hh |].
    exists (S k). simpl. lia.
Qed.

Lemma is_exchanges_snoc userMessage reply : forall n h,
  length h <= n ->
  is_exchanges h = true ->
  is_exchanges (h ++ [mkTurn turn_user userMessage; mkTurn turn_assistant reply])
  = true.
Proof.
  induction n as [|n IH]; intros h Hlen Hh.
  - destruct h; [reflexivity | simpl in Hlen; lia].
  - destruct h as [|u [|a h]]; [reflexivity | discriminate |].
    cbn [is_exchanges app] in *.
    destruct (turn_role u), (turn_role a); try discriminate.
    apply IH; [simpl in Hlen; lia | exact Hh].
Qed.

(** X11. After any sequence of calls on the initially empty store, every
    stored history is a sequence of exchanges: a user turn followed by an
    assistant turn, any number of times.  The window never cuts an
    exchange in two. *)
Theorem histories_are_whole_exchanges calls userId :
  is_exchanges
    (default [] (run HF_API_KEY env_HF_MODEL getSystemPrompt calls ∅ !! userId))
  = true.
Proof.
  apply (run_invariant (fun h => is_exchanges h = true)).
  - intros h userMessage reply Hh _.
    pose proof (is_exchanges_snoc userMessage reply _ h (Nat.le_refl _) Hh) as Happ.
    destruct (is_exchanges_even _ _ (Nat.le_refl _) Happ) as [k Hk].
    unfold slice_last, MAX_HISTORY. rewrite Hk.
    replace (2 * k - 10) with (2 * (k - 5)) by lia.
    now apply is_exchanges_drop.
  - intros u. now rewrite lookup_empty.
Qed.

(** X12. After any sequence of calls on the initially empty store, every
    assistant turn of every stored history holds a text that is not empty
    and has no white space at either end. *)
Theorem stored_answers_are_clean calls userId :
  clean_answers
    (default [] (run HF_API_KEY env_HF_MODEL getSystemPrompt calls ∅ !! userId)).
Proof.
  apply (run_invariant clean_answers).
  - intros h userMessage reply Hh Hclean. unfold clean_answers, slice_last.
    apply Forall_drop, Forall_app_2; [exact Hh|].
    apply Forall_cons_2; [discriminate|].
    apply Forall_cons_2; [intros _; exact Hclean | apply Forall_nil_2].
  - intros u. rewrite lookup_empty. constructor.
Qed.

(** X13. After any sequence of calls on the initially empty store, the
    [messages] array of the chat-completion request of the next call has
    at most [MAX_HISTORY + 2] entries. *)
Theorem chat_request_is_bounded calls fetch userId userMessage :
  no_api_key HF_API_KEY = false ->
  let store := run HF_API_KEY env_HF_MODEL getSystemPrompt calls ∅ in
  exists req answer rest wire,
    (getAIResponse HF_API_KEY env_HF_MODEL getSystemPrompt fetch
                   store userId userMessage).2
    = (req, answer) :: rest
    /\ Js.get (body req) "messages" = Some (JArr wire)
    /\ length wire <= MAX_HISTORY + 2.
Proof.
  intros Hk store.
  destruct (getAIResponse_first_request fetch store userId userMessage Hk)
    as (req & answer & rest & Htrace & Hbody).
  eexists req, answer, rest, _. split; [exact Htrace|]. split; [exact Hbody|].
  rewrite length_map, !length_app, length_map. cbn [length].
  assert (Hlen : length (default [] (store !! userId)) <= MAX_HISTORY).
  { subst store. apply (run_invariant (fun h => length h <= MAX_HISTORY)).
    - intros h m reply _ _. apply slice_last_length.
    - intros u. rewrite lookup_empty. simpl. lia. }
  lia.
Qed.

(** ** Clearing a history *)

Lemma getAIResponse_reads_one_history fetch store1 store2 userId userMessage :
  store1 !! userId = store2 !! userId ->
  (getAI fetch store1 userId userMessage).1.1
  = (getAI fetch store2 userId userMessage).1.1
  /\ (getAI fetch store1 userId userMessage).2
     = (getAI fetch store2 userId userMessage).2.
Proof.
  intros Heq. unfold getAIResponse. destruct no_key; [split; reflexivity|].
  rewrite Heq.
  destruct (callHF fetch _) as [resp trace]. cbn [try_catch].
  destruct (success resp); [|split; reflexivity].
  destruct (message resp) as [reply|]; [|split; reflexivity].
  destruct (JsString.nonempty reply); split; reflexivity.
Qed.

(** X14. After [clearUserHistory], a call of that user is answered as the
    call of a user the service has never seen: same result, same requests,
    same history afterwards; the histories of the other users are those
    from before the clearing. *)
Theorem clearing_starts_a_fresh_conversation fetch store userId userMessage :
  let after :=
    getAIResponse HF_API_KEY env_HF_MODEL getSystemPrompt fetch
                  (clearUserHistory store userId) userId userMessage in
  let fresh :=
    getAIResponse HF_API_KEY env_HF_MODEL getSystemPrompt fetch
                  ∅ userId userMessage in
  after.1.1 = fresh.1.1
  /\ after.2 = fresh.2
  /\ after.1.2 !! userId = fresh.1.2 !! userId
  /\ (forall other, other <> userId -> after.1.2 !! other = store !! other).
Proof.
  intros after fresh. subst after fresh.
  assert (Hsame : clearUserHistory store userId !! userId
                  = (∅ : gmap Z (list Turn)) !! userId).
  { unfold clearUserHistory. now rewrite lookup_delete_eq, lookup_empty. }
  destruct (getAIResponse_reads_one_history fetch _ _ userId userMessage Hsame)
    as [Hres Htrace].
  split; [exact Hres|]. split; [exact Htrace|]. split.
  - rewrite !(getAIResponse_store HF_API_KEY env_HF_MODEL getSystemPrompt).
    rewrite Hres, Hsame.
    destruct (getAI fetch ∅ userId userMessage).1.1
      as [[[|] [reply|] err ty]|]; try exact Hsame.
    destruct (JsString.nonempty reply); [|exact Hsame].
    now rewrite !lookup_insert_eq.
  - intros other Hne.
    rewrite (getAIResponse_store HF_API_KEY env_HF_MODEL getSystemPrompt).
    assert (Hother : clearUserHistory store userId !! other = store !! other).
    { unfold clearUserHistory. apply lookup_delete_ne. congruence. }
    destruct (getAI fetch (clearUserHistory store userId) userId userMessage).1.1
      as [[[|] [reply|] err ty]|]; try exact Hother.
    destruct (JsString.nonempty reply); [|exact Hother].
    rewrite lookup_insert_ne by congruence. exact Hother.
Qed.

(** ** More on the store, the fallback list and the extraction *)

(** X15. An answered call always leaves its own exchange at the end of
    the sender's history: the window evicts older turns only. *)
Theorem newest_exchange_is_kept fetch store userId userMessage result reply :
  let out :=
    getAIResponse HF_API_KEY env_HF_MODEL getSystemPrompt fetch
                  store userId userMessage in
  out.1.1 = Some result ->
  success result = true ->
  message result = Some reply ->
  JsString.nonempty reply = true ->
  exists older,
    out.1.2 !! userId
    = Some (older ++ [mkTurn turn_user userMessage; mkTurn turn_assistant reply])
    /\ length older <= MAX_HISTORY - 2.
Proof.
  intros out Hres Hok Hmsg Hreply. subst out.
  rewrite (getAIResponse_store HF_API_KEY env_HF_MODEL getSystemPrompt).
  rewrite Hres. destruct result as [ok_ msg err ty]. cbn in Hok, Hmsg.
  subst ok_ msg. rewrite Hreply, lookup_insert_eq.
  set (h := default [] (store !! userId)).
  exists (drop (length h + 2 - MAX_HISTORY) h). split.
  - f_equal. unfold slice_last. rewrite length_app. cbn [length].
    apply drop_app_le. unfold MAX_HISTORY. lia.
  - rewrite length_drop. unfold MAX_HISTORY. lia.
Qed.

Lemma spec_traverse_pass fetch i model endpoint rest n :
  spec_traverse HF_API_KEY fetch ((i, model, endpoint) :: rest) (Some i) n
  = spec_traverse HF_API_KEY fetch rest (Some i) n.
Proof. cbn [spec_traverse]. now rewrite Nat.eqb_refl. Qed.

Lemma spec_traverse_resume fetch i j model endpoint rest n :
  Nat.eqb i j = false ->
  exists answer more,
    spec_traverse HF_API_KEY fetch ((i, model, endpoint) :: rest) (Some j) n
    = (request_for HF_API_KEY model endpoint, answer) :: more.
Proof. intros H. cbn [spec_traverse]. rewrite H. eauto. Qed.

(** X16. When [HF_MODEL] is not set, the fallback list starts with the
    default model a second time: if the first request is answered
    "model not supported" (status 400, the code [model_not_supported], a
    message that the log statement can print), the second request of the
    call is the very same request again. *)
Theorem unset_model_is_asked_again fetch messages :
  no_api_key HF_API_KEY = false ->
  (forall req, verdict (fetch 0 req) = SkipModel) ->
  exists req first second rest,
    (callHuggingFace HF_API_KEY None fetch messages).2
    = (req, first) :: (req, second) :: rest.
Proof.
  intros Hk Hskip. rewrite (callHuggingFace_trace _ _ _ _ Hk).
  unfold candidate_matrix, modelsToTry, endpoints, HF_MODEL.
  cbn [candidates_from map app].
  rewrite spec_traverse_step, Hskip, !spec_traverse_pass.
  match goal with
  | |- context [spec_traverse _ _ ((1, ?m, ?e) :: ?l) (Some 0) 1] =>
      destruct (spec_traverse_resume fetch 1 0 m e l 1 eq_refl)
        as (second & rest & ->)
  end.
  eexists _, _, second, rest. reflexivity.
Qed.

(** X17. On an array body the extraction never throws, and what it
    returns is [null] or a string: the array branch checks the type of the
    value it found. *)
Theorem array_bodies_yield_strings items :
  extractGeneratedText (JArr items) = Ok None
  \/ exists s, extractGeneratedText (JArr items) = Ok (Some (JStr s)).
Proof.
  unfold extractGeneratedText, extract_object.
  cbn [Js.truthy negb Js.is_object Js.get Js.truthy_opt bind].
  unfold extract_array.
  destruct items as [|first rest]; [left; reflexivity|].
  destruct (negb (Js.truthy first)); [left; reflexivity|].
  destruct first as [|b|m e|s|nested|fields]; eauto;
    destruct (Js.nullish _ _) as [[| | |s| |]|]; eauto.
Qed.

(** ** The bot *)

Variable characterName : string.

(** X18. The [ai_enabled] flag of the health check tells whether
    [getAIResponse] answers: it is [true] exactly when a call returns a
    result, and [false] exactly when it returns [null]. *)
Theorem health_tells_whether_the_service_answers fetch store userId userMessage :
  Js.get (health HF_API_KEY) "ai_enabled"
  = Some (JBool
            (match (getAIResponse HF_API_KEY env_HF_MODEL getSystemPrompt fetch
                                  store userId userMessage).1.1 with
             | Some _ => true
             | None => false
             end)).
Proof.
  unfold health, AI_ENABLED. cbn [Js.get Js.assoc String.eqb Ascii.eqb Bool.eqb].
  destruct no_key eqn:Hk.
  - unfold getAIResponse. now rewrite Hk.
  - now destruct (getAIResponse_calls _ env_HF_MODEL getSystemPrompt
                    fetch store userId userMessage Hk) as [-> _].
Qed.

(** X19. The [/start] handler and the text handler test the result of the
    service in a different order, and choose the same branch for every
    result. *)
Theorem handlers_choose_alike aiResponse :
  start_choice aiResponse = text_choice aiResponse.
Proof.
  destruct aiResponse as [[[|] [[|c m]|] err [[| | |]|]]|]; reflexivity.
Qed.

Lemma choice_is_never_insufficient_balance fetch store userId userMessage :
  start_choice (getAI fetch store userId userMessage).1.1
  <> ReplyInsufficientBalance
  /\ text_choice (getAI fetch store userId userMessage).1.1
     <> ReplyInsufficientBalance.
Proof.
  destruct no_key eqn:Hk.
  { unfold getAIResponse. rewrite Hk. split; discriminate. }
  destruct (getAIResponse_calls _ env_HF_MODEL getSystemPrompt
              fetch store userId userMessage Hk) as [-> _].
  pose proof (callHuggingFace_errorType HF_API_KEY env_HF_MODEL fetch
                ([mkMessage system getSystemPrompt]
                   ++ map message_of_turn (default [] (store !! userId))
                   ++ [mkMessage user userMessage])) as Hty.
  destruct (callHF fetch _).1 as [[|] [[|c m]|] err [[| | |]|]];
    cbn [start_choice text_choice success message errorType] in *;
    split; try discriminate; contradiction.
Qed.

(** X20. Whatever the provider and Telegram do, neither handler ever takes
    the branch that tells the user to check the quota.  The branch that
    [/start] and the text handler choose on the result of the service is
    never that one; the one text of [/start] is the text of the branch
    chosen, and every text of the text handler is the text of the branch
    chosen or the fixed text of the [catch] block. *)
Theorem bot_never_blames_the_quota fetch tg ctx store :
  let firstName := first_name_or_default ctx in
  let userId := sender_or_zero ctx in
  let started :=
    getAIResponse HF_API_KEY env_HF_MODEL getSystemPrompt fetch store userId
      ("Привет! Я " ++ firstName
       ++ ", и я только что начал общаться с тобой.")%string in
  let answered :=
    getAIResponse HF_API_KEY env_HF_MODEL getSystemPrompt fetch store userId
      (default ""%string (ctx_text ctx)) in
  start_choice started.1.1 <> ReplyInsufficientBalance
  /\ replies (on_start HF_API_KEY env_HF_MODEL getSystemPrompt characterName
                       fetch ctx store)
     = [reply_text characterName (Some firstName) (start_choice started.1.1)]
  /\ text_choice answered.1.1 <> ReplyInsufficientBalance
  /\ Forall (fun text =>
               text = oops
               \/ text = reply_text characterName None (text_choice answered.1.1))
            (replies (on_text HF_API_KEY env_HF_MODEL getSystemPrompt
                              characterName fetch tg ctx store)).
Proof.
  intros firstName userId started answered.
  split; [apply choice_is_never_insufficient_balance|].
  split.
  { unfold on_start. fold firstName userId started.
    destruct started as [[ai store'] requests]. reflexivity. }
  split; [apply choice_is_never_insufficient_balance|].
  unfold on_text, text_catch. fold userId.
  destruct (negb _); [constructor|]. destruct (is_command _); [constructor|].
  destruct (tg_sendChatAction tg).
  { cbn [replies app]. repeat constructor. }
  fold answered. destruct answered as [[ai store'] requests]. cbn [fst].
  destruct (tg_reply tg 0 _); cbn [replies app];
    repeat (apply Forall_cons_2 || apply Forall_nil_2); auto.
Qed.

(** X21. The text handler ignores an update without text, with an empty
    text, or with a text that starts with "/": it sends nothing, calls
    neither Telegram nor the provider, and leaves the store as it was. *)
Theorem commands_and_empty_texts_are_ignored fetch tg ctx store :
  JsString.nonempty (default ""%string (ctx_text ctx)) = false
  \/ is_command (default ""%string (ctx_text ctx)) = true ->
  on_text HF_API_KEY env_HF_MODEL getSystemPrompt characterName fetch tg ctx store
  = mkHandled [] store [] None.
Proof.
  intros [H|H]; unfold on_text; rewrite H; [reflexivity|].
  now destruct (negb _).
Qed.

(** X22. The text handler sends at most two texts.  An exception leaves
    it only when the fallback reply of its [catch] block is rejected, and
    that reply is then the last text it tried to send.  When the typing
    indicator is rejected the service is not called: no request is issued
    and the store is unchanged.  When Telegram rejects nothing, at most
    one text is sent and no exception leaves the handler. *)
Theorem text_handler_absorbs_failures fetch tg ctx store :
  let h :=
    on_text HF_API_KEY env_HF_MODEL getSystemPrompt characterName
            fetch tg ctx store in
  length (replies h) <= 2
  /\ (forall e,
        escaped h = Some e ->
        last (replies h) = Some oops
        /\ tg_reply tg (length (replies h) - 1) oops = Some e)
  /\ (tg_sendChatAction tg <> None ->
      handled_store h = store /\ handled_requests h = [])
  /\ (tg_sendChatAction tg = None ->
      (forall n text, tg_reply tg n text = None) ->
      length (replies h) <= 1 /\ escaped h = None).
Proof.
  intros h. subst h. unfold on_text, text_catch.
  destruct (negb _).
  { cbn. repeat split; try lia; try discriminate. }
  destruct (is_command _).
  { cbn. repeat split; try lia; try discriminate. }
  destruct (tg_sendChatAction tg) as [failure|] eqn:Htyping.
  { cbn. split; [lia|]. split; [intros e He; split; [reflexivity | exact He]|].
    split; [split; reflexivity|]. discriminate. }
  destruct (getAI fetch store (sender_or_zero ctx) _) as [[ai store'] requests].
  destruct (tg_reply tg 0 _) as [failure|] eqn:Hreply.
  - cbn. split; [lia|]. split; [intros e He; split; [reflexivity | exact He]|].
    split; [intros Hne; contradiction|].
    intros _ Hfine. rewrite Hfine in Hreply. discriminate.
  - cbn. split; [lia|]. split; [discriminate|].
    split; [intros Hne; contradiction|]. intros _ _. split; [lia | reflexivity].
Qed.

(** X23. When the text handler calls the service, the first text it sends
    and the store agree: if the text is the answer of the provider, the
    store holds the user's message and that very answer as the last
    exchange of the sender (cut to the window); if it is any other text,
    the store is unchanged.  An update without sender is filed under the
    user id 0. *)
Theorem text_reply_is_the_stored_answer fetch tg ctx store :
  let message := default ""%string (ctx_text ctx) in
  let userId := sender_or_zero ctx in
  JsString.nonempty message = true ->
  is_command message = false ->
  tg_sendChatAction tg = None ->
  let h :=
    on_text HF_API_KEY env_HF_MODEL getSystemPrompt characterName
            fetch tg ctx store in
  exists kind,
    replies h !! 0 = Some (reply_text characterName None kind)
    /\ handled_store h
       = match kind with
         | ReplyAi text =>
             <[userId :=
                 slice_last MAX_HISTORY
                   (default [] (store !! userId)
                      ++ [mkTurn turn_user message; mkTurn turn_assistant text])]>
               store
         | _ => store
         end.
Proof.
  intros message userId Hne Hcmd Htyping h. subst h.
  unfold on_text, text_catch. fold message userId.
  rewrite Hne, Hcmd, Htyping. cbn [negb].
  pose proof (getAIResponse_store HF_API_KEY env_HF_MODEL getSystemPrompt
                fetch store userId message) as Hstore.
  destruct (getAI fetch store userId message) as [[ai store'] requests].
  cbn [fst snd] in Hstore. subst store'.
  exists (text_choice ai).
  destruct (tg_reply tg 0 _); (split; [reflexivity|]); cbn [handled_store];
    destruct ai as [[[|] [[|c m]|] err [[| | |]|]]|]; reflexivity.
Qed.

(** X24. The [/start] handler passes exactly one text to [ctx.reply], and
    the text and the store agree: if it is the answer of the provider, the
    store holds the greeting that the handler wrote in the user's name and
    that very answer as the last exchange of the sender; if it is any other
    text, the store is unchanged. *)
Theorem start_reply_is_the_stored_answer fetch ctx store :
  let firstName := first_name_or_default ctx in
  let userId := sender_or_zero ctx in
  let h :=
    on_start HF_API_KEY env_HF_MODEL getSystemPrompt characterName
             fetch ctx store in
  exists kind,
    replies h = [reply_text characterName (Some firstName) kind]
    /\ handled_store h
       = match kind with
         | ReplyAi text =>
             <[userId :=
                 slice_last MAX_HISTORY
                   (default [] (store !! userId)
                      ++ [mkTurn turn_user
                            ("Привет! Я " ++ firstName
                             ++ ", и я только что начал общаться с тобой.")%string;
                          mkTurn turn_assistant text])]>
               store
         | _ => store
         end.
Proof.
  intros firstName userId h. subst h. unfold on_start. fold firstName userId.
  pose proof (getAIResponse_store HF_API_KEY env_HF_MODEL getSystemPrompt
                fetch store userId
                ("Привет! Я " ++ firstName
                 ++ ", и я только что начал общаться с тобой.")%string) as Hstore.
  destruct (getAI fetch store userId _) as [[ai store'] requests].
  cbn [fst snd] in Hstore. subst store'.
  exists (start_choice ai). split; [reflexivity|]. cbn [handled_store].
  destruct ai as [[[|] [[|c m]|] err [[| | |]|]]|]; reflexivity.
Qed.

(** X25. Without a credential the bot calls no provider and stores
    nothing: [/start] answers with the setup instructions addressed to the
    sender, and the text handler answers a message with the setup
    instructions addressed to the community. *)
Theorem bot_without_key_explains_the_setup fetch tg ctx store :
  no_api_key HF_API_KEY = true ->
  on_start HF_API_KEY env_HF_MODEL getSystemPrompt characterName fetch ctx store
  = mkHandled
      [getProviderSetupMessage characterName (Some (first_name_or_default ctx))]
      store [] None
  /\ (JsString.nonempty (default ""%string (ctx_text ctx)) = true ->
      is_command (default ""%string (ctx_text ctx)) = false ->
      tg_sendChatAction tg = None ->
      let h :=
        on_text HF_API_KEY env_HF_MODEL getSystemPrompt characterName
                fetch tg ctx store in
      replies h !! 0 = Some (getProviderSetupMessage characterName None)
      /\ handled_store h = store
      /\ handled_requests h = []).
Proof.
  intros Hk. split.
  - unfold on_start, getAIResponse. rewrite Hk. reflexivity.
  - intros Hne Hcmd Htyping h. subst h.
    unfold on_text, text_catch, getAIResponse. rewrite Hne, Hcmd, Htyping, Hk.
    cbn [negb text_choice reply_text].
    destruct (tg_reply tg 0 _); repeat split.
Qed.

End Coverage.

(** ** The further properties on concrete providers and bots *)

Local Open Scope string_scope.

(** User 7 is answered; the history of user 8 stays. *)
Lemma other_users_keep_their_history_witness :
  (getAIResponse Examples.key None Examples.prompt Examples.net_legacy
                 Scenarios.two_users 7%Z "hello").1.2 !! 8%Z
  = Some [mkTurn turn_user "hi"; mkTurn turn_assistant "Hello"].
Proof.
  rewrite other_users_keep_their_history by discriminate.
  reflexivity.
Defined.

Lemma each_candidate_is_requested_at_most_once_witness :
  1 <= length (hello_call Examples.net_third_succeeds).2 <= 18.
Proof.
  apply (each_candidate_is_requested_at_most_once
           Examples.key None Examples.net_third_succeeds hello_messages eq_refl).
Defined.

Lemma requests_go_to_the_router_witness :
  Forall (fun x => String.prefix router (url x.1) = true)
         (hello_call Examples.net_down).2.
Proof.
  eapply List.Forall_impl;
    [|apply (requests_go_to_the_router
               Examples.key None Examples.net_down hello_messages eq_refl)].
  intros x (_ & _ & H). exact H.
Defined.

Lemma success_needs_a_2xx_text_witness :
  exists req r s,
    last (hello_call Examples.net_third_succeeds).2 = Some (req, Resolved r)
    /\ ok r = true
    /\ usable_text r = Some s
    /\ (hello_call Examples.net_third_succeeds).1
       = success_result (JsString.trim s).
Proof.
  apply (success_needs_a_2xx_text
           Examples.key None Examples.net_third_succeeds hello_messages eq_refl).
  vm_compute. reflexivity.
Defined.

Lemma unusable_2xx_is_an_api_error_witness :
  success (hello_call Examples.net_empty_object).1 = false
  /\ errorType (hello_call Examples.net_empty_object).1 = Some api_error.
Proof.
  eapply (unusable_2xx_is_an_api_error
            Examples.key None Examples.net_empty_object hello_messages);
    [reflexivity | vm_compute; reflexivity | reflexivity | reflexivity].
Defined.

Lemma provider_unavailable_means_503_witness :
  exists r,
    last_response (hello Scenarios.net_warming).2 = Some r /\ status r = 503%Z.
Proof.
  eapply (provider_unavailable_means_503
            Examples.key None Examples.prompt Scenarios.net_warming ∅ 7%Z "hello");
    [vm_compute; reflexivity | reflexivity].
Defined.

Lemma result_is_success_or_failure_witness :
  (exists reply, success_result "Hi there" = success_result reply)
  \/ (exists e t, success_result "Hi there" = failure_result e t).
Proof.
  apply (result_is_success_or_failure
           Examples.key None Examples.prompt Examples.net_third_succeeds
           ∅ 7%Z "hello").
  vm_compute. reflexivity.
Defined.

Lemma extraction_throws_only_on_null_choice_witness :
  exists e, extractGeneratedText Scenarios.null_choice = Throw e.
Proof.
  apply (proj2 (extraction_throws_only_on_null_choice Scenarios.null_choice)).
  reflexivity.
Defined.

Lemma buildPrompt_is_one_line_per_message_witness :
  buildPrompt hello_messages
  = String.concat "" (map prompt_line hello_messages) ++ "Assistant:".
Proof. apply buildPrompt_is_one_line_per_message. discriminate. Defined.

Lemma chat_request_sends_the_prompt_as_user_witness :
  exists req answer rest,
    (getAIResponse Examples.key None Examples.prompt Examples.net_legacy
                   Scenarios.two_users 8%Z "again").2
    = (req, answer) :: rest
    /\ Js.get (body req) "messages"
       = Some (JArr [ wire_message "user" Examples.prompt;
                      wire_message "user" "hi";
                      wire_message "assistant" "Hello";
                      wire_message "user" "again" ]).
Proof.
  apply (chat_request_sends_the_prompt_as_user
           Examples.key None Examples.prompt Examples.net_legacy
           Scenarios.two_users 8%Z "again" eq_refl).
Defined.

Lemma chat_request_is_bounded_witness :
  exists req answer rest wire,
    (getAIResponse Examples.key None Examples.prompt Examples.net_legacy
       (run Examples.key None Examples.prompt
            (map (fun c => mkInvocation c.1.1 c.1.2 c.2) Examples.six_exchanges) ∅)
       7%Z "m7").2
    = (req, answer) :: rest
    /\ Js.get (body req) "messages" = Some (JArr wire)
    /\ length wire <= MAX_HISTORY + 2.
Proof.
  apply (chat_request_is_bounded
           Examples.key None Examples.prompt
           (map (fun c => mkInvocation c.1.1 c.1.2 c.2) Examples.six_exchanges)
           Examples.net_legacy 7%Z "m7" eq_refl).
Defined.

Lemma clearing_starts_a_fresh_conversation_witness :
  (getAIResponse Examples.key None Examples.prompt Examples.net_legacy
                 (clearUserHistory Scenarios.two_users 8%Z) 8%Z "again").2
  = (getAIResponse Examples.key None Examples.prompt Examples.net_legacy
                   ∅ 8%Z "again").2.
Proof.
  destruct (clearing_starts_a_fresh_conversation
              Examples.key None Examples.prompt Examples.net_legacy
              Scenarios.two_users 8%Z "again") as (_ & H & _).
  exact H.
Defined.

Lemma newest_exchange_is_kept_witness :
  exists older,
    (hello Examples.net_third_succeeds).1.2 !! 7%Z
    = Some (older ++ [mkTurn turn_user "hello"; mkTurn turn_assistant "Hi there"])%list
    /\ length older <= MAX_HISTORY - 2.
Proof.
  eapply (newest_exchange_is_kept
            Examples.key None Examples.prompt Examples.net_third_succeeds
            ∅ 7%Z "hello");
    [vm_compute; reflexivity | reflexivity | reflexivity | reflexivity].
Defined.

Lemma unset_model_is_asked_again_witness :
  exists req first second rest,
    (callHuggingFace Examples.key None Scenarios.net_unsupported_first
                     hello_messages).2
    = (req, first) :: (req, second) :: rest.
Proof.
  apply (unset_model_is_asked_again
           Examples.key Scenarios.net_unsupported_first hello_messages eq_refl).
  intros req. reflexivity.
Defined.

Lemma commands_and_empty_texts_are_ignored_witness :
  on_text Examples.key None Examples.prompt Scenarios.name Examples.net_legacy
          Scenarios.tg_fine Scenarios.ann_asks_a_joke ∅
  = mkHandled [] ∅ [] None.
Proof. apply commands_and_empty_texts_are_ignored. right. reflexivity. Defined.

(** Telegram rejects everything: the fallback reply is the only text, its
    rejection leaves the handler, and the provider is not called. *)
Lemma text_handler_absorbs_failures_witness :
  let h :=
    on_text Examples.key None Examples.prompt Scenarios.name Examples.net_legacy
            Scenarios.tg_deaf Scenarios.ann_says_hello ∅ in
  last (replies h) = Some oops
  /\ handled_requests h = []
  /\ length
       (replies
          (on_text Examples.key None Examples.prompt Scenarios.name
                   Examples.net_legacy Scenarios.tg_fine
                   Scenarios.ann_says_hello ∅)) <= 1.
Proof.
  intros h.
  pose proof (text_handler_absorbs_failures
                Examples.key None Examples.prompt Scenarios.name
                Examples.net_legacy Scenarios.tg_deaf Scenarios.ann_says_hello ∅)
    as Hdeaf.
  pose proof (text_handler_absorbs_failures
                Examples.key None Examples.prompt Scenarios.name
                Examples.net_legacy Scenarios.tg_fine Scenarios.ann_says_hello ∅)
    as Hfine.
  cbv zeta in Hdeaf, Hfine.
  destruct Hdeaf as (_ & Hescaped & Htyping & _).
  destruct Hfine as (_ & _ & _ & Hfine).
  split; [|split].
  - apply (Hescaped (Error "ETELEGRAM")). reflexivity.
  - apply Htyping. discriminate.
  - apply Hfine; [reflexivity | intros n text; reflexivity].
Defined.

Lemma text_reply_is_the_stored_answer_witness :
  exists kind,
    replies
      (on_text Examples.key None Examples.prompt Scenarios.name
               Examples.net_legacy Scenarios.tg_flaky
               Scenarios.ann_says_hello ∅) !! 0
    = Some (reply_text Scenarios.name None kind)
    /\ handled_store
         (on_text Examples.key None Examples.prompt Scenarios.name
                  Examples.net_legacy Scenarios.tg_flaky
                  Scenarios.ann_says_hello ∅)
       = match kind with
         | ReplyAi text =>
             <[7%Z :=
                 slice_last MAX_HISTORY
                   (default [] ((∅ : gmap Z (list Turn)) !! 7%Z)
                      ++ [mkTurn turn_user "hello"; mkTurn turn_assistant text])%list]>
               ∅
         | _ => ∅
         end.
Proof.
  apply (text_reply_is_the_stored_answer
           Examples.key None Examples.prompt Scenarios.name
           Examples.net_legacy Scenarios.tg_flaky Scenarios.ann_says_hello ∅);
    reflexivity.
Defined.

Lemma bot_without_key_explains_the_setup_witness :
  on_start None None Examples.prompt Scenarios.name Examples.net_legacy
           Scenarios.ann_says_hello ∅
  = mkHandled [getProviderSetupMessage Scenarios.name (Some "Ann")] ∅ [] None
  /\ replies
       (on_text None None Examples.prompt Scenarios.name Examples.net_legacy
                Scenarios.tg_fine Scenarios.ann_says_hello ∅) !! 0
     = Some (getProviderSetupMessage Scenarios.name None).
Proof.
  destruct (bot_without_key_explains_the_setup
              None None Examples.prompt Scenarios.name Examples.net_legacy
              Scenarios.tg_fine Scenarios.ann_says_hello ∅ eq_refl)
    as [Hstart Htext].
  split; [exact Hstart|].
  apply Htext; reflexivity.
Defined.
